(** * co-assist: the Gmail compose/send pipeline and the HTTP facade

    A shallow embedding of
      - [gmail_automation/main_async_fixed.py]  (field locator, retry
        executor, compose/send pipeline),
      - [unified_api.py]                        (POST /gmail/send, POST /api/search),
      - [pdf/retriever/app.py]                  (POST /api/search),
    followed by the properties of the specification that concern them.

    Python coroutines are modelled in an exception-and-trace monad: a
    computation takes the list of calls issued so far to the outside world
    (browser page, file system, event loop) and returns either a value or a
    raised exception, together with the extended list.  What the outside
    world answers is decided by an oracle [page] that sees the whole history,
    so every deterministic fake page, and every single run against a real one,
    is an instance. *)

From Stdlib Require Import Ascii ZArith Lia.
From stdpp Require Import base strings list gmap pretty.

Open Scope string_scope.
Open Scope Z_scope.
Open Scope list_scope.

(** ** Python values and dictionaries *)

(** The values that occur in an e-mail dictionary: [None], a [str], or a
    list of [str]. *)
Inductive pyval :=
| PNone
| PStr (s : string)
| PList (l : list string).

(** Python truthiness ([if v:], [not v]). *)
Definition truthy (v : pyval) : bool :=
  match v with
  | PNone => false
  | PStr s => negb (String.eqb s "")
  | PList l => match l with [] => false | _ => true end
  end.

Abbreviation pydict := (gmap string pyval).

(** [d.get(k)]: the value, [None] when the key is absent. *)
Definition dict_get (d : pydict) (k : string) : pyval := default PNone (d !! k).

(** ** Exceptions *)

(** Instances of [Exception].  [HTTPException] is FastAPI's; the last
    constructor stands for whatever Playwright or another collaborator
    raises. *)
Inductive exn :=
| HTTPException (status_code : Z) (detail : string)
| ValueError (msg : string)
| TimeoutError (msg : string)
| KeyError (key : string)
| UnboundLocalError (name : string)
| NameError (name : string)
| ExternalError (msg : string).

(** [str(e)].  Starlette's [HTTPException.__str__] prints
    [f"{status_code}: {detail}"]; [KeyError] prints the [repr] of its key. *)
Definition str_exn (e : exn) : string :=
  match e with
  | HTTPException st d => pretty st +:+ ": " +:+ d
  | ValueError m => m
  | TimeoutError m => m
  | KeyError k => "'" +:+ k +:+ "'"
  | UnboundLocalError n =>
      "cannot access local variable '" +:+ n +:+ "' where it is not associated with a value"
  | NameError n => "name '" +:+ n +:+ "' is not defined"
  | ExternalError m => m
  end.

Inductive result (A : Type) :=
| Val (a : A)
| Exc (e : exn).
Arguments Val {A} a.
Arguments Exc {A} e.

(** ** Calls to the outside world *)

(** An element handle: [page.locator(sel).first], or the first text box of
    the open dialog ([textboxes.first] in [wait_for_element]). *)
Inductive element :=
| LocatorFirst (sel : string)
| DialogTextboxFirst.

Inductive counted :=
| Dialog            (* page.locator("div[role='dialog']") *)
| DialogTextboxes.  (* dialog.locator("[contenteditable='true'], input[type='text'], textarea") *)

Inductive call :=
| PlaywrightStart                            (* entering [async with async_playwright()] *)
| PlaywrightStop                             (* leaving it *)
| Launch                                     (* p.chromium.launch_persistent_context(...) *)
| NewPage                                    (* browser.new_page() *)
| BrowserClose                               (* browser.close() *)
| Goto (url : string)                        (* page.goto(url, wait_until="domcontentloaded") *)
| WaitForSelector (sel : string) (timeout : Z) (* page.wait_for_selector(sel, timeout=..) *)
| WaitVisible (sel : string) (timeout : Z)   (* page.locator(sel).first.wait_for(state="visible", timeout=..) *)
| Count (what : counted)                     (* locator.count() *)
| Click (el : element)
| Clear (el : element)
| Fill (el : element) (value : pyval)
| Press (key : string)                       (* page.keyboard.press(key) *)
| MakeDirs (path : string)                   (* os.makedirs(path, exist_ok=True) *)
| Screenshot (path : string)                 (* page.screenshot(path=path, full_page=True) *)
| Sleep (seconds : Z).                       (* asyncio.sleep(seconds) *)

Abbreviation trace := (list call).

(** The answer to a call: it completes (with a number, read by [count()]
    only) or raises. *)
Inductive reply :=
| Ok (n : Z)
| Raise (e : exn).

(** ** The monad *)

Definition M (A : Type) : Type := trace → result A * trace.

Definition ret {A} (a : A) : M A := λ s, (Val a, s).

Definition raise {A} (e : exn) : M A := λ s, (Exc e, s).

Definition bind {A B} (m : M A) (k : A → M B) : M B :=
  λ s, match m s with
       | (Val a, s') => k a s'
       | (Exc e, s') => (Exc e, s')
       end.

(** [try: m  except Exception as e: h e] *)
Definition try_except {A} (m : M A) (h : exn → M A) : M A :=
  λ s, match m s with
       | (Val a, s') => (Val a, s')
       | (Exc e, s') => h e s'
       end.

Notation "'let!' x ':=' m 'in' k" := (bind m (λ x, k))
  (at level 10, x name, m at level 100, k at level 200).
Notation "m '>>' k" := (bind m (λ _, k))
  (at level 90, right associativity).

(** ** The outside world *)

Record world := World {
  (** the page (with the file system and the event loop): what each call
      answers after a given history *)
  page : trace → call → reply;
  (** [datetime.now().strftime('%Y%m%d_%H%M%S')] after a given history *)
  clock : trace → string;
  (** [str(l)] for a list [l] of strings (a Python builtin) *)
  str_list : list string → string;
  (** whether the module [main_async_fixed] has bound the name [asyncio]:
      its first lines import it on Windows only, its last lines when it is
      run as a script; imported anywhere else the name is unbound *)
  asyncio_bound : bool
}.

Definition py_str (w : world) (v : pyval) : string :=
  match v with
  | PNone => "None"
  | PStr s => s
  | PList l => str_list w l
  end.

(** Issue a call; it is recorded whether it completes or raises. *)
Definition perform (w : world) (c : call) : M Z :=
  λ s, match page w s c with
       | Ok n => (Val n, s ++ [c])
       | Raise e => (Exc e, s ++ [c])
       end.

Definition now (w : world) : M string := λ s, (Val (clock w s), s).

(** [d[k]] *)
Definition subscript (d : pydict) (k : string) : M pyval :=
  match d !! k with
  | Some v => ret v
  | None => raise (KeyError k)
  end.

(** [v if isinstance(v, list) else [v]] *)
Definition as_list (v : pyval) : list pyval :=
  match v with
  | PList l => PStr <$> l
  | _ => [v]
  end.

(** The double quote, and the two bidirectional marks (U+202A, U+202C, in
    UTF-8) that Gmail puts around the shortcut in the Send label. *)
Definition dq : string := String "034"%char "".
Definition lre_mark : string := String "226"%char (String "128"%char (String "170"%char "")).
Definition pdf_mark : string := String "226"%char (String "128"%char (String "172"%char "")).
Definition newline : string := String "010"%char "".

(** * gmail_automation/main_async_fixed.py *)

Module MainAsyncFixed.
Section WithWorld.
Variable w : world.

(** [await asyncio.sleep(n)]: where the module has bound the name
    [asyncio] the sleep is recorded and completes; where it has not, looking
    the name up raises [NameError] and nothing is called. *)
Definition asyncio_sleep (n : Z) : M unit :=
  if asyncio_bound w then λ s, (Val tt, s ++ [Sleep n])
  else raise (NameError "asyncio").

Definition save_screenshot (label : string) : M (option string) :=
  try_except
    (perform w (MakeDirs "screens") >>
     let! stamp := now w in
     let path := "screens/" +:+ stamp +:+ "_" +:+ label +:+ ".png" in
     perform w (Screenshot path) >>
     ret (Some path))
    (λ e, (* logger.error *) ret None).

Definition login : M unit :=
  try_except
    (perform w (Goto "https://mail.google.com") >>
     perform w (WaitForSelector "div[gh='cm']" 120000) >>
     perform w (WaitForSelector "div[role='main']" 60000) >>
     ret tt)
    (λ e, (* logger.error *) raise e).

(** The [selector] argument of [wait_for_element]: a [str] or a list. *)
Inductive selector_arg :=
| Str (sel : string)
| Strs (sels : list string).

(** [[selector] if isinstance(selector, str) else selector] *)
Definition selectors_of (selector : selector_arg) : list string :=
  match selector with
  | Str sel => [sel]
  | Strs sels => sels
  end.

(** The [for sel in selectors] loop of [wait_for_element]; [budget] is
    [timeout//len(selectors)].  [None]: the loop ran to its end. *)
Fixpoint try_selectors (budget : Z) (selectors : list string) : M (option element) :=
  match selectors with
  | [] => ret None
  | sel :: rest =>
      try_except
        (let element := LocatorFirst sel in
         perform w (WaitVisible sel budget) >>
         ret (Some element))
        (λ _, (* continue *) try_selectors budget rest)
  end.

Definition wait_for_element (selector : selector_arg) (timeout : Z)
    (description : string) : M element :=
  try_except
    (let selectors := selectors_of selector in
     let! found := try_selectors (timeout `div` Z.of_nat (length selectors)) selectors in
     match found with
     | Some element => ret element
     | None =>
         let! dialogs := perform w (Count Dialog) in
         let! fallback :=
           (if 0 <? dialogs then
              let! textboxes := perform w (Count DialogTextboxes) in
              if 0 <? textboxes then ret (Some DialogTextboxFirst) else ret None
            else ret None) in
         match fallback with
         | Some element => ret element
         | None => raise (TimeoutError ("Could not find " +:+ description))
         end
     end)
    (λ e, (* logger.error *) raise e).

Definition to_field_selectors : list string :=
  ["input[aria-label='To']"; "input[name='to']"; "div[aria-label='To'] input"; "input[email]"].
Definition subject_selectors : list string :=
  ["input[name='subjectbox']"; "input[aria-label='Subject']"].
Definition body_selectors : list string :=
  ["div[aria-label='Message Body']"; "div[contenteditable='true']"; "div[role='textbox']"].

(** The body of the [try] in [fill_field_with_retry]: one attempt.  With a
    [field_type] other than the three known ones, [field] is unbound. *)
Definition fill_field_attempt (field_type : string) (value : pyval) : M bool :=
  let! field :=
    (if String.eqb field_type "to" then
       let! f := wait_for_element (Strs to_field_selectors) 5000 "To field" in ret (Some f)
     else if String.eqb field_type "subject" then
       let! f := wait_for_element (Strs subject_selectors) 5000 "Subject field" in ret (Some f)
     else if String.eqb field_type "body" then
       let! f := wait_for_element (Strs body_selectors) 5000 "Message body" in ret (Some f)
     else ret None) in
  match field with
  | None => raise (UnboundLocalError "field")
  | Some field =>
      perform w (Click field) >>
      perform w (Clear field) >>
      perform w (Fill field (PStr (py_str w value))) >>
      ret true
  end.

(** [for attempt in range(max_retries)], from the attempts still to run;
    [max_retries] is any [int]. *)
Fixpoint fill_field_attempts (field_type : string) (value : pyval)
    (max_retries : Z) (attempts : list nat) : M bool :=
  match attempts with
  | [] => ret false
  | attempt :: rest =>
      try_except (fill_field_attempt field_type value)
        (λ e, if Z.of_nat attempt =? max_retries - 1 then raise e
              else (* logger.warning *)
                   asyncio_sleep 1 >>
                   fill_field_attempts field_type value max_retries rest)
  end.

(** [range(max_retries)] is empty when [max_retries] is zero or negative. *)
Definition fill_field_with_retry (field_type : string) (value : pyval)
    (max_retries : Z) : M bool :=
  fill_field_attempts field_type value max_retries (seq 0 (Z.to_nat max_retries)).

Definition to_selectors : list string :=
  ["input[aria-label='To']"; "input[name='to']"; "div[aria-label='To'] input"].
Definition cc_selectors : list string :=
  ["input[aria-label='Cc']"; "input[name='cc']"].
Definition bcc_selectors : list string :=
  ["input[aria-label='Bcc']"; "input[name='bcc']"].
Definition send_selectors : list string :=
  ["div[aria-label=" +:+ dq +:+ "Send " +:+ lre_mark +:+ "(Ctrl-Enter)" +:+ pdf_mark +:+ dq +:+ "]";
   "div[data-tooltip=" +:+ dq +:+ "Send" +:+ dq +:+ "]";
   "button[aria-label=" +:+ dq +:+ "Send" +:+ dq +:+ "]";
   "div[role=" +:+ dq +:+ "button" +:+ dq +:+ "]:has-text(" +:+ dq +:+ "Send" +:+ dq +:+ ")"].

(** The three [for email in ..._emails] loops of [send_email] have the same
    body up to the selectors and the description. *)
Fixpoint fill_addresses (selectors : list string) (description : string)
    (emails : list pyval) : M unit :=
  match emails with
  | [] => ret tt
  | email :: rest =>
      let! field := wait_for_element (Strs selectors) 5000 description in
      perform w (Click field) >>
      perform w (Fill field email) >>
      perform w (Press "Enter") >>
      fill_addresses selectors description rest
  end.

(** The body of the [try] in [send_email]: one attempt. *)
Definition send_email_attempt (email_data : pydict) : M (option bool) :=
  let! compose_btn := wait_for_element (Str "div[gh='cm']") 10000 "compose button" in
  perform w (Click compose_btn) >>
  wait_for_element (Str "div[role='dialog']") 10000 "compose dialog" >>
  asyncio_sleep 1 >>
  let! to_emails := subscript email_data "to" in
  fill_addresses to_selectors "To field" (as_list to_emails) >>
  (if truthy (dict_get email_data "cc") then
     let! cc_emails := subscript email_data "cc" in
     fill_addresses cc_selectors "Cc field" (as_list cc_emails)
   else ret tt) >>
  (if truthy (dict_get email_data "bcc") then
     let! bcc_emails := subscript email_data "bcc" in
     fill_addresses bcc_selectors "Bcc field" (as_list bcc_emails)
   else ret tt) >>
  let! subject := subscript email_data "subject" in
  fill_field_with_retry "subject" subject 3 >>
  let! body_field := wait_for_element (Strs body_selectors) 5000 "Message body" in
  perform w (Click body_field) >>
  let! body := subscript email_data "body" in
  perform w (Fill body_field (PStr (py_str w body))) >>
  let! send_btn := wait_for_element (Strs send_selectors) 5000 "Send button" in
  perform w (Click send_btn) >>
  perform w (WaitForSelector "span.bAq" 10000) >>
  ret (Some true).

(** [for attempt in range(max_retries)] of [send_email]; falling out of
    the loop returns [None]. *)
Fixpoint send_email_attempts (email_data : pydict) (max_retries : nat)
    (attempts : list nat) : M (option bool) :=
  match attempts with
  | [] => ret None
  | attempt :: rest =>
      try_except (send_email_attempt email_data)
        (λ e, if Z.of_nat attempt =? Z.of_nat max_retries - 1 then
                (* logger.error *)
                let! screenshot_path :=
                  save_screenshot ("send_error_attempt_" +:+ pretty (Z.of_nat attempt + 1)) in
                (* logger.info if screenshot_path *)
                raise e
              else (* logger.warning *)
                   asyncio_sleep 2 >>
                   send_email_attempts email_data max_retries rest)
  end.

Definition send_email (email_data : pydict) : M (option bool) :=
  (* the f-string of the first log line *)
  subscript email_data "to" >>
  subscript email_data "subject" >>
  let max_retries := 3%nat in
  send_email_attempts email_data max_retries (seq 0 max_retries).

End WithWorld.
End MainAsyncFixed.

(** [result] computations inside [M]: a call to a collaborator that does not
    touch the page. *)
Definition lift {A} (r : result A) : M A := λ s, (r, s).

(** [async with cm: body]: the exit call runs once on every way out of
    [body]; what it raises takes the place of the outcome of [body]. *)
Definition async_with {A} (w : world) (enter exit : call) (body : M A) : M A :=
  perform w enter >>
  λ s, match body s with
       | (Val a, s') => (perform w exit >> ret a) s'
       | (Exc e, s') => (perform w exit >> raise e) s'
       end.

(** * unified_api.py *)

Module UnifiedApi.

(** [class EmailRequest(BaseModel)] *)
Module EmailRequest.
Record t := Build {
  to : list string;
  subject : string;
  body : string;
  cc : option (list string);
  bcc : option (list string)
}.
End EmailRequest.

(** [class GmailSendRequest(BaseModel)] *)
Module GmailSendRequest.
Record t := Build {
  task : string;
  to : option (list string);
  cc : option (list string);
  bcc : option (list string);
  tone : option string
}.
End GmailSendRequest.

(** [class PDFSearchRequest(BaseModel)] *)
Module PDFSearchRequest.
Record t := Build {
  question : string;
  max_results : Z
}.
End PDFSearchRequest.

(** [GmailAgent], of which the facade uses [parse_task(task, tone_hint=..)]. *)
Record GmailAgent := {
  parse_task : string → option string → result pydict
}.

(** The names [unified_api.py] binds at import time: the three globals of its
    initialisation block and the functions it imports from modules that are
    not part of the sources at hand. *)
Record globals := {
  gmail_agent : option GmailAgent;
  gmail_env : option pydict;
  gmail_init_error : option string;
  (** [gmail_automation.main.parse_email_json] *)
  parse_email_json : pydict → result pydict;
  (** [gmail_automation.main_async.login], [.send_email] *)
  login_async : pydict → M unit;
  send_email_async : pydict → M (option bool);
  (** [qdrant.similarity_search(question, k=..)]: the chunks' [page_content] *)
  similarity_search : string → Z → result (list string);
  (** [pdf.retriever.llm.token(question, model, context)] *)
  token : string → string → string → result string
}.

(** The dictionary a successful [gmail_send] returns. *)
Record send_response := {
  success : bool;
  message : string;
  email_preview : pydict
}.

(** The dictionary a successful [search_documents] returns. *)
Record search_response := {
  response : string;
  context : string;
  chunks_found : Z
}.

Section WithGlobals.
Variable w : world.
Variable g : globals.

Definition _send_email_async (email_data env : pydict) : M unit :=
  try_except
    (async_with w PlaywrightStart PlaywrightStop
       (perform w Launch >>
        perform w NewPage >>
        login_async g env >>
        send_email_async g email_data >>
        perform w BrowserClose >>
        ret tt))
    (λ e, (* print *) raise e).

(** [if value: instructions[key] = value] *)
Definition override (key : string) (value : option (list string))
    (instructions : pydict) : pydict :=
  match value with
  | Some (x :: l) => <[key := PList (x :: l)]> instructions
  | _ => instructions
  end.

(** Step 2 of [gmail_send]: merge recipients from the request. *)
Definition merge_recipients (request : GmailSendRequest.t)
    (instructions : pydict) : pydict :=
  override "bcc" (GmailSendRequest.bcc request)
    (override "cc" (GmailSendRequest.cc request)
       (override "to" (GmailSendRequest.to request) instructions)).

(** [x or 'Check configuration.'] *)
Definition or_check_configuration (x : option string) : string :=
  match x with
  | Some m => if String.eqb m "" then "Check configuration." else m
  | None => "Check configuration."
  end.

Definition gmail_send (request : GmailSendRequest.t) : M send_response :=
  match gmail_agent g, gmail_env g with
  | Some agent, Some env =>
      try_except
        (let! instructions :=
           lift (parse_task agent (GmailSendRequest.task request)
                   (GmailSendRequest.tone request)) in
         let instructions := merge_recipients request instructions in
         let! email_data := lift (parse_email_json g instructions) in
         (if negb (truthy (dict_get email_data "to"))
          then raise (ValueError "No recipient found after parsing/merge.")
          else ret tt) >>
         try_except (_send_email_async email_data env)
           (λ e, raise (HTTPException 500 ("Gmail send failed: " +:+ str_exn e))) >>
         ret {| success := true;
                message := "✅ Email sent successfully";
                email_preview := email_data |})
        (λ e, match e with
              | HTTPException _ _ => raise e
              | _ => (* Any earlier error (LLM parse, validation, etc.) *)
                  raise (HTTPException 500 ("Gmail send failed: " +:+ str_exn e))
              end)
  | _, _ =>
      raise (HTTPException 503
               ("Gmail service not available. " +:+
                or_check_configuration (gmail_init_error g)))
  end.

Definition search_documents (query : PDFSearchRequest.t) : M search_response :=
  try_except
    (let question := PDFSearchRequest.question query in
     (if String.eqb question ""
      then raise (HTTPException 400 "Question is required")
      else ret tt) >>
     let! chunks := lift (similarity_search g question 5) in
     let context := String.concat newline chunks in
     let! response := lift (token g question "x-ai/grok-2-vision-1212" context) in
     ret {| response := response;
            context := context;
            chunks_found := Z.of_nat (length chunks) |})
    (λ e, (* logger.error *)
       raise (HTTPException 500 ("Search error: " +:+ str_exn e))).

End WithGlobals.
End UnifiedApi.

(** * pdf/retriever/app.py *)

Module PdfRetrieverApp.

(** [class SearchQuery(BaseModel)] *)
Module SearchQuery.
Record t := Build {
  question : string
}.
End SearchQuery.

(** The global [qdrant] (set by [lifespan]) and the imported [token]. *)
Record globals := {
  similarity_search : string → Z → result (list string);
  token : string → string → string → result string
}.

Record search_response := {
  response : string;
  context : string;
  chunks_found : Z
}.

Section WithGlobals.
Variable g : globals.

Definition search_documents (query : SearchQuery.t) : M search_response :=
  try_except
    (let question := SearchQuery.question query in
     (if String.eqb question ""
      then raise (HTTPException 400 "Question is required")
      else ret tt) >>
     let! chunks := lift (similarity_search g question 5) in
     let context := String.concat newline chunks in
     let! response := lift (token g question "x-ai/grok-2-vision-1212" context) in
     ret {| response := response;
            context := context;
            chunks_found := Z.of_nat (length chunks) |})
    (λ e, (* logger.error *)
       raise (HTTPException 500 ("Search error: " +:+ str_exn e))).

End WithGlobals.
End PdfRetrieverApp.

(** * gmail_automation/main_async_fixed.py: the script *)

Module MainAsyncFixedMain.

(** The message [main()] sends. *)
Definition email_data : pydict :=
  <["to" := PList ["test@example.com"]]>
  (<["subject" := PStr "Test Email from Async Gmail - Fixed"]>
  (<["body" := PStr "This is a test email sent using the improved async Playwright script!"]>
  (<["cc" := PList []]>
  (<["bcc" := PList []]> ∅)))).

(** [main()]; [load_gmail_env()] and [GmailAgent(groq_api_key=..)] are
    imported from modules that are not part of the sources at hand. *)
Definition main (w : world) (load_gmail_env : result pydict)
    (new_agent : pyval → result unit) : M unit :=
  let! env := lift load_gmail_env in
  let! groq_api_key := subscript env "GROQ_API_KEY" in
  lift (new_agent groq_api_key) >>
  async_with w PlaywrightStart PlaywrightStop
    (perform w Launch >>
     perform w NewPage >>
     MainAsyncFixed.login w >>
     MainAsyncFixed.send_email w email_data >>
     perform w BrowserClose >>
     ret tt).

End MainAsyncFixedMain.

(** * unified_api.py: the initialisation of the Gmail agent *)

Module UnifiedApiInit.

(** The values of [gmail_agent], [gmail_env] and [gmail_init_error] after
    the [try] of the initialisation block: what was assigned before an
    exception stays assigned, and the text of the exception is kept. *)
Definition gmail_init (load_gmail_env : result pydict)
    (new_agent : pyval → result UnifiedApi.GmailAgent)
    : option UnifiedApi.GmailAgent * option pydict * option string :=
  match load_gmail_env with
  | Exc e => (None, None, Some (str_exn e))
  | Val gmail_env =>
      let groq_key := dict_get gmail_env "GROQ_API_KEY" in
      if negb (truthy groq_key) then
        (* raise RuntimeError("GROQ_API_KEY missing in environment.") *)
        (None, Some gmail_env, Some "GROQ_API_KEY missing in environment.")
      else
        match new_agent groq_key with
        | Val gmail_agent => (Some gmail_agent, Some gmail_env, None)
        | Exc e => (None, Some gmail_env, Some (str_exn e))
        end
  end.

End UnifiedApiInit.

(** * agent_with_crewAI/search_service.py and POST /agent/search *)

Module SearchService.

(** The two dictionaries [search_web] returns. *)
Inductive search_result :=
| Found (query result : string) (context : option pydict) (results : list string)
| Failed (error query : string).

(** The description of the task, an f-string over the query. *)
Definition task_description (query : string) : string :=
  "Search the web for: " +:+ query +:+ ". " +:+ newline +:+
  "Context: Objective: Accurate, actionable answer for a user in Madurai, Tamil Nadu, India." +:+ newline +:+
  "Source preference: Official/government portals, standards bodies, reputable institutions, recognized media." +:+ newline +:+
  "Output: 3-6 concise bullets with practical steps." +:+ newline +:+
  "Exclusions: Ads, opinion pieces, outdated or non-Indian context unless needed for comparison.".

(** [search_web]; [crew] stands for the CrewAI calls of its [try] block:
    the task with the given description is built, put into a crew and
    kicked off, and [str] is taken of the result. *)
Definition search_web (crew : string → result string) (query : string)
    (context : option pydict) (max_results : Z) : search_result :=
  match crew (task_description query) with
  | Val result => Found query result context [result]
  | Exc e => Failed (str_exn e) query
  end.

End SearchService.

Module UnifiedApiAgent.

(** [class SearchRequest(BaseModel)] *)
Module SearchRequest.
Record t := Build {
  query : string;
  context : option pydict;
  max_results : Z
}.
End SearchRequest.

Definition agent_search (crew : string → result string) (request : SearchRequest.t)
    : M SearchService.search_result :=
  try_except
    (let result :=
       SearchService.search_web crew (SearchRequest.query request)
         (SearchRequest.context request) (SearchRequest.max_results request) in
     match result with
     | SearchService.Found _ _ _ _ => ret result
     | SearchService.Failed error _ => raise (HTTPException 500 error)
     end)
    (λ e, raise (HTTPException 500 (str_exn e))).

End UnifiedApiAgent.

(** * POST /api/upload (unified_api.py and pdf/retriever/app.py) *)

Module Upload.

(** [c.lower()] on an ASCII letter; other bytes are left alone, which does
    not change whether the lowered name ends in ".pdf". *)
Definition lower_ascii (c : ascii) : ascii :=
  let n := nat_of_ascii c in
  if (65 <=? n)%nat && (n <=? 90)%nat then ascii_of_nat (n + 32) else c.

Fixpoint lower (s : string) : string :=
  match s with
  | EmptyString => EmptyString
  | String c s' => String (lower_ascii c) (lower s')
  end.

(** [s.endswith(suffix)] *)
Fixpoint endswith (s suffix : string) : bool :=
  String.eqb s suffix ||
  match s with
  | EmptyString => false
  | String _ s' => endswith s' suffix
  end.

(** What the handler calls outside itself. *)
Record collaborators := {
  (** [tempfile.NamedTemporaryFile(delete=False, suffix=".pdf")]: the name
      of the file it creates, given the files that exist *)
  mktemp : gset string → result string;
  (** [await file.read()] *)
  read : result string;
  (** [temp_file.write(content)], by the name of the file *)
  write : string → string → result unit;
  (** leaving the [with] block closes the file *)
  close : string → result unit;
  (** [PyPDFLoader(path).load()]: the pages *)
  load : string → result (list string);
  (** [text_splitter.split_documents(documents)] *)
  split_documents : list string → result (list string);
  (** [qdrant.add_documents(chunks)] *)
  add_documents : list string → result unit;
  (** [os.unlink(path)] *)
  unlink : string → result unit
}.

Record upload_response := {
  success : bool;
  message : string;
  filename : string;
  chunks_added : Z
}.

Section WithCollaborators.
Variable k : collaborators.

(** The [with] block: the files that exist at its end, and either the
    path it has put into [temp_file_path] or the exception it raises with
    the value [temp_file_path] has then. *)
Definition write_temp_file (files : gset string)
    : (string + exn * option string) * gset string :=
  match mktemp k files with
  | Exc e => (inr (e, None), files)
  | Val name =>
      let files := {[name]} ∪ files in
      match read k with
      | Exc e =>
          match close k name with
          | Exc e' => (inr (e', None), files)
          | Val _ => (inr (e, None), files)
          end
      | Val content =>
          match write k name content with
          | Exc e =>
              match close k name with
              | Exc e' => (inr (e', None), files)
              | Val _ => (inr (e, None), files)
              end
          | Val _ =>
              (* temp_file_path = temp_file.name *)
              match close k name with
              | Exc e' => (inr (e', Some name), files)
              | Val _ => (inl name, files)
              end
          end
      end
  end.

(** The [try] block of [upload_file]: its outcome, the value of
    [temp_file_path] at its end, and the files that exist then. *)
Definition process (file_name : string) (files : gset string)
    : result upload_response * option string * gset string :=
  match write_temp_file files with
  | (inr (e, temp_file_path), files) => (Exc e, temp_file_path, files)
  | (inl temp_file_path, files) =>
      match load k temp_file_path with
      | Exc e => (Exc e, Some temp_file_path, files)
      | Val documents =>
          match split_documents k documents with
          | Exc e => (Exc e, Some temp_file_path, files)
          | Val chunks =>
              match add_documents k chunks with
              | Exc e => (Exc e, Some temp_file_path, files)
              | Val _ =>
                  (Val {| success := true;
                          message := "Successfully uploaded and processed " +:+ file_name;
                          filename := file_name;
                          chunks_added := Z.of_nat (length chunks) |},
                   Some temp_file_path, files)
              end
          end
      end
  end.

(** [upload_file]: the outcome and the files that exist afterwards. *)
Definition upload_file (file_name : string) (files : gset string)
    : result upload_response * gset string :=
  if negb (endswith (lower file_name) ".pdf") then
    (Exc (HTTPException 400 "Only PDF files are supported"), files)
  else
    let '(outcome, temp_file_path, files) := process file_name files in
    let outcome :=
      match outcome with
      | Val response => Val response
      | Exc e => Exc (HTTPException 500 ("Error processing file: " +:+ str_exn e))
      end in
    (* finally *)
    match temp_file_path with
    | Some path =>
        if negb (String.eqb path "") && bool_decide (path ∈ files) then
          match unlink k path with
          | Exc e => (Exc e, files)
          | Val _ => (outcome, files ∖ {[path]})
          end
        else (outcome, files)
    | None => (outcome, files)
    end.

End WithCollaborators.
End Upload.

(** * Observations on runs *)

Import MainAsyncFixed.

Definition raises (r : reply) : bool :=
  match r with
  | Raise _ => true
  | Ok _ => false
  end.

(** The waits on the candidates [sels], one after the other. *)
Definition waits (budget : Z) (sels : list string) : trace :=
  (λ sel, WaitVisible sel budget) <$> sels.

(** Every candidate of [sels], waited on in turn from history [s], fails to
    become visible. *)
Fixpoint all_fail (w : world) (budget : Z) (s : trace) (sels : list string) : bool :=
  match sels with
  | [] => true
  | sel :: rest =>
      raises (page w s (WaitVisible sel budget)) &&
      all_fail w budget (s ++ [WaitVisible sel budget]) rest
  end.

(** Candidate [sel] becomes visible when waited on after the candidates
    [pre]. *)
Definition resolves (w : world) (budget : Z) (s : trace) (pre : list string)
    (sel : string) : bool :=
  negb (raises (page w (s ++ waits budget pre) (WaitVisible sel budget))).

(** From history [s], the open dialog exists and holds a text box. *)
Definition fallback_finds (w : world) (s : trace) : bool :=
  match page w s (Count Dialog) with
  | Ok dialogs =>
      (0 <? dialogs) &&
      match page w (s ++ [Count Dialog]) (Count DialogTextboxes) with
      | Ok textboxes => 0 <? textboxes
      | Raise _ => false
      end
  | Raise _ => false
  end.

Definition is_count (c : call) : bool :=
  match c with
  | Count _ => true
  | _ => false
  end.

(** The number of calls of a trace that satisfy [p]. *)
Fixpoint count_calls (p : call → bool) (t : trace) : nat :=
  match t with
  | [] => 0%nat
  | c :: t => ((if p c then 1 else 0) + count_calls p t)%nat
  end.

(** Whatever the history, a run of [m] only appends calls, at most [n] of
    which satisfy [p]. *)
Definition spends {A} (p : call → bool) (n : nat) (m : M A) : Prop :=
  ∀ s, ∃ t, (m s).2 = s ++ t ∧ (count_calls p t ≤ n)%nat.

(** The calls of an attempt to send, short of the wait for the
    confirmation marker. *)
Definition pipeline_call (c : call) : bool :=
  match c with
  | WaitVisible _ _ | Count _ | Click _ | Clear _ | Fill _ _ | Press _ | Sleep _ => true
  | _ => false
  end.

(** From history [s], [action] is run over and over, a back-off sleep
    following each failure: it fails [k] times in a row and succeeds on the
    run after these, with value and history as returned. *)
Fixpoint fails_then_succeeds {A} (action : M A) (backoff : Z) (k : nat)
    (s : trace) : option (A * trace) :=
  match action s, k with
  | (Val a, s'), O => Some (a, s')
  | (Exc _, s1), S k' => fails_then_succeeds action backoff k' (s1 ++ [Sleep backoff])
  | _, _ => None
  end.

(** From history [s], [action] is run [n] times, [n] at least one, with a
    back-off sleep between two runs, and fails every time; the last run
    raises the exception and leaves the history returned. *)
Fixpoint fails_every_time {A} (action : M A) (backoff : Z) (n : nat)
    (s : trace) : option (exn * trace) :=
  match n, action s with
  | 1%nat, (Exc e, s1) => Some (e, s1)
  | S n', (Exc _, s1) => fails_every_time action backoff n' (s1 ++ [Sleep backoff])
  | _, _ => None
  end.

(** The first call of an attempt of [fill_field_with_retry], by which a
    recording page counts the attempts. *)
Definition attempt_start (field_type : string) (c : call) : bool :=
  match c with
  | WaitVisible sel b =>
      if String.eqb field_type "to" then
        String.eqb sel "input[aria-label='To']" && (b =? 5000 `div` 4)
      else if String.eqb field_type "subject" then
        String.eqb sel "input[name='subjectbox']" && (b =? 5000 `div` 2)
      else if String.eqb field_type "body" then
        String.eqb sel "div[aria-label='Message Body']" && (b =? 5000 `div` 3)
      else false
  | _ => false
  end.

(** The field types [fill_field_with_retry] knows. *)
Definition known_field (field_type : string) : Prop :=
  field_type = "to" ∨ field_type = "subject" ∨ field_type = "body".

(** The first call of [save_screenshot], by which a recording page counts
    the snapshots asked for. *)
Definition snapshot_start (c : call) : bool :=
  match c with
  | MakeDirs _ => true
  | _ => false
  end.

(** The file [save_screenshot] names, asked for a snapshot at history [s]. *)
Definition snapshot_path (w : world) (label : string) (s : trace) : string :=
  "screens/" +:+ clock w (s ++ [MakeDirs "screens"]) +:+ "_" +:+ label +:+ ".png".

Definition confirmation_wait (c : call) : bool :=
  match c with
  | WaitForSelector sel _ => String.eqb sel "span.bAq"
  | _ => false
  end.

(** [field] is what a look-up over [sels] can return. *)
Definition returned_for (sels : list string) (field : element) : Prop :=
  match field with
  | LocatorFirst sel => sel ∈ sels
  | DialogTextboxFirst => True
  end.

(** A click on an element found by one of the Send button's selectors. *)
Definition send_click (c : call) : bool :=
  match c with
  | Click (LocatorFirst sel) => bool_decide (sel ∈ send_selectors)
  | _ => false
  end.

(** A call of a look-up over the candidates [sels] with total timeout
    [timeout]: a wait on one of them with its share of the timeout, or a
    count of the fallback. *)
Definition is_lookup (sels : list string) (timeout : Z) (c : call) : bool :=
  match c with
  | WaitVisible sel b =>
      bool_decide (sel ∈ sels) && (b =? timeout `div` Z.of_nat (length sels))
  | Count _ => true
  | _ => false
  end.

(** The calls [lookup] are a look-up that ends by finding [field]. *)
Definition found_by (sels : list string) (timeout : Z) (lookup : trace)
    (field : element) : Prop :=
  Forall (λ c, is_lookup sels timeout c = true) lookup ∧
  last lookup =
  Some match field with
       | LocatorFirst sel => WaitVisible sel (timeout `div` Z.of_nat (length sels))
       | DialogTextboxFirst => Count DialogTextboxes
       end.

Inductive recipient_field := ToField | CcField | BccField.

Definition recipient_selectors (f : recipient_field) : list string :=
  match f with
  | ToField => to_selectors
  | CcField => cc_selectors
  | BccField => bcc_selectors
  end.

(** One address put into field [f]: the field is looked up, and what the
    look-up finds is clicked and filled with the address, which Enter
    commits. *)
Inductive entered (f : recipient_field) (address : pyval) : trace → Prop :=
| entered_intro lookup field :
    found_by (recipient_selectors f) 5000 lookup field →
    entered f address (lookup ++ [Click field; Fill field address; Press "Enter"]).

(** The addresses put in, one after the other, and nothing in between. *)
Inductive entered_in_order : list (recipient_field * pyval) → trace → Prop :=
| entered_none : entered_in_order [] []
| entered_next f address rest t t' :
    entered f address t → entered_in_order rest t' →
    entered_in_order ((f, address) :: rest) (t ++ t').

(** [for email in v if isinstance(v, list) else [v]], run only [if v]. *)
Definition optional_addresses (v : pyval) : list pyval :=
  if truthy v then as_list v else [].

(** The addresses of a message in the order [send_email] goes through
    them. *)
Definition recipients_of (email_data : pydict) : list (recipient_field * pyval) :=
  (pair ToField <$> as_list (dict_get email_data "to")) ++
  (pair CcField <$> optional_addresses (dict_get email_data "cc")) ++
  (pair BccField <$> optional_addresses (dict_get email_data "bcc")).

Definition is_press (c : call) : bool :=
  match c with
  | Press _ => true
  | _ => false
  end.

(** Calls that put text into the page. *)
Definition is_entry (c : call) : bool :=
  match c with
  | Fill _ _ | Press _ => true
  | _ => false
  end.

(** The HTTP status of a run that ends in an [HTTPException]. *)
Definition status_of {A} (r : result A) : option Z :=
  match r with
  | Exc (HTTPException status _) => Some status
  | _ => None
  end.

(** The response is a client error (4xx). *)
Definition client_error {A} (r : result A) : Prop :=
  ∃ status, status_of r = Some status ∧ 400 ≤ status < 500.

(** Caller values win when present and non-empty. *)
Definition chosen (caller : option (list string)) (translated : option pyval)
    : option pyval :=
  match caller with
  | Some (x :: l) => Some (PList (x :: l))
  | _ => translated
  end.

(** The recipients of [draft] are those of [request] where it names some,
    and those of [instructions] where it does not. *)
Definition recipients_chosen (request : UnifiedApi.GmailSendRequest.t)
    (instructions draft : pydict) : Prop :=
  draft !! "to" = chosen (UnifiedApi.GmailSendRequest.to request) (instructions !! "to") ∧
  draft !! "cc" = chosen (UnifiedApi.GmailSendRequest.cc request) (instructions !! "cc") ∧
  draft !! "bcc" = chosen (UnifiedApi.GmailSendRequest.bcc request) (instructions !! "bcc").

(** A validator that hands the recipients on as it got them. *)
Definition keeps_recipients (validate : pydict → result pydict) : Prop :=
  ∀ d d', validate d = Val d' →
          d' !! "to" = d !! "to" ∧ d' !! "cc" = d !! "cc" ∧ d' !! "bcc" = d !! "bcc".

(** The time a trace spends waiting on candidates: the sum of the timeouts
    of its waits. *)
Fixpoint waited (t : trace) : Z :=
  match t with
  | [] => 0
  | WaitVisible _ b :: t => b + waited t
  | _ :: t => waited t
  end.

Definition is_wait (c : call) : bool :=
  match c with
  | WaitVisible _ _ => true
  | _ => false
  end.

(** A wait on a candidate with a timeout of 0, which Playwright takes as
    no time limit. *)
Definition unlimited_wait (c : call) : bool :=
  match c with
  | WaitVisible _ b => b =? 0
  | _ => false
  end.

Definition is_sleep (c : call) : bool :=
  match c with
  | Sleep _ => true
  | _ => false
  end.

Definition is_browser_close (c : call) : bool :=
  match c with
  | BrowserClose => true
  | _ => false
  end.

Definition is_http (e : exn) : bool :=
  match e with
  | HTTPException _ _ => true
  | _ => false
  end.

(** Whatever the history, a run of [m] only appends calls, and one of them
    satisfies [p] when the run returns, none when it raises. *)
Definition once_when_done {A} (p : call → bool) (m : M A) : Prop :=
  ∀ s, ∃ t, (m s).2 = s ++ t ∧
            count_calls p t = match (m s).1 with Val _ => 1%nat | Exc _ => 0%nat end.

(** The three globals of [g] are what the initialisation block leaves. *)
Definition initialised_by (load_gmail_env : result pydict)
    (new_agent : pyval → result UnifiedApi.GmailAgent) (g : UnifiedApi.globals) : Prop :=
  (UnifiedApi.gmail_agent g, UnifiedApi.gmail_env g, UnifiedApi.gmail_init_error g)
  = UnifiedApiInit.gmail_init load_gmail_env new_agent.

(** * Recording fake pages *)

Module Fake.

(** [str] of a list of strings that hold no quote and no backslash. *)
Definition str_list (l : list string) : string :=
  "[" +:+ String.concat ", " ((λ x, "'" +:+ x +:+ "'") <$> l) +:+ "]".

Definition clock (s : trace) : string := "20240101_120000".

(** Every call completes; a count answers 1. *)
Definition page_ok (s : trace) (c : call) : reply := Ok 1.

(** The confirmation marker never appears. *)
Definition page_unconfirmed (s : trace) (c : call) : reply :=
  match c with
  | WaitForSelector sel _ =>
      if String.eqb sel "span.bAq"
      then Raise (TimeoutError "Timeout 10000ms exceeded.")
      else Ok 1
  | _ => Ok 1
  end.

Definition is_fill (c : call) : bool :=
  match c with
  | Fill _ _ => true
  | _ => false
  end.

(** The first two fills fail. *)
Definition page_fill_fails_twice (s : trace) (c : call) : reply :=
  match c with
  | Fill _ _ =>
      if (count_calls is_fill s <? 2)%nat
      then Raise (ExternalError "Element is not editable")
      else Ok 1
  | _ => Ok 1
  end.

(** The first candidate for the To field never shows. *)
Definition page_second_candidate (s : trace) (c : call) : reply :=
  match c with
  | WaitVisible sel _ =>
      if String.eqb sel "input[aria-label='To']"
      then Raise (TimeoutError "Timeout 1666ms exceeded.")
      else Ok 1
  | _ => Ok 1
  end.

(** Nothing ever shows, and no dialog is open. *)
Definition page_blank (s : trace) (c : call) : reply :=
  match c with
  | WaitVisible _ _ => Raise (TimeoutError "Timeout exceeded.")
  | Count _ => Ok 0
  | _ => Ok 1
  end.

Definition world_ok : world := World page_ok clock str_list true.
Definition world_unconfirmed : world := World page_unconfirmed clock str_list true.
Definition world_fill_fails_twice : world := World page_fill_fails_twice clock str_list true.
Definition world_second_candidate : world := World page_second_candidate clock str_list true.
Definition world_blank : world := World page_blank clock str_list true.

(** The same pages in a process that has imported the module off Windows:
    the name [asyncio] is unbound. *)
Definition world_ok_imported : world := World page_ok clock str_list false.
Definition world_unconfirmed_imported : world :=
  World page_unconfirmed clock str_list false.
Definition world_fill_fails_twice_imported : world :=
  World page_fill_fails_twice clock str_list false.
Definition world_blank_imported : world := World page_blank clock str_list false.

(** The message of [main()]. *)
Definition email_data : pydict :=
  <["to" := PList ["test@example.com"]]>
  (<["subject" := PStr "Test Email from Async Gmail - Fixed"]>
  (<["body" := PStr "This is a test email sent using the improved async Playwright script!"]>
  (<["cc" := PList []]>
  (<["bcc" := PList []]> ∅)))).

(** A translator that finds a subject and a body but no recipient. *)
Definition instructions_no_recipient : pydict :=
  <["subject" := PStr "Request for an extension"]>
  (<["body" := PStr "Dear Professor, may I hand in on Friday?"]> ∅).

Definition agent_no_recipient : UnifiedApi.GmailAgent :=
  {| UnifiedApi.parse_task := λ _ _, Val instructions_no_recipient |}.

(** A translator that proposes the recipient [a@x]. *)
Definition instructions_a : pydict :=
  <["to" := PList ["a@x"]]> (<["cc" := PList []]> instructions_no_recipient).

Definition agent_a : UnifiedApi.GmailAgent :=
  {| UnifiedApi.parse_task := λ _ _, Val instructions_a |}.

(** A process whose Gmail service came up, with a validator that returns
    the message as it is, and the pipeline of [main_async_fixed.py]. *)
Definition globals (w : world) (agent : UnifiedApi.GmailAgent) : UnifiedApi.globals :=
  {| UnifiedApi.gmail_agent := Some agent;
     UnifiedApi.gmail_env := Some ∅;
     UnifiedApi.gmail_init_error := None;
     UnifiedApi.parse_email_json := λ d, Val d;
     UnifiedApi.login_async := λ _, MainAsyncFixed.login w;
     UnifiedApi.send_email_async := MainAsyncFixed.send_email w;
     UnifiedApi.similarity_search := λ _ _, Val [];
     UnifiedApi.token := λ _ _ _, Val "" |}.

Definition request_no_recipient : UnifiedApi.GmailSendRequest.t :=
  UnifiedApi.GmailSendRequest.Build
    "Email professor requesting extension, formal" (Some []) (Some []) (Some [])
    (Some "formal").

Definition request_b : UnifiedApi.GmailSendRequest.t :=
  UnifiedApi.GmailSendRequest.Build
    "Email professor requesting extension, formal" (Some ["b@x"]) (Some []) (Some [])
    (Some "formal").

(** A message with recipients of all three kinds. *)
Definition email_data_all : pydict :=
  <["to" := PList ["a@x"; "b@x"]]>
  (<["cc" := PList ["c@x"]]>
  (<["bcc" := PList ["d@x"]]>
  (<["subject" := PStr "Minutes"]>
  (<["body" := PStr "See attached."]> ∅)))).

(** No candidate ever shows, but a dialog with a text box is open. *)
Definition page_dialog_only (s : trace) (c : call) : reply :=
  match c with
  | WaitVisible _ _ => Raise (TimeoutError "Timeout exceeded.")
  | _ => Ok 1
  end.

Definition world_dialog_only : world := World page_dialog_only clock str_list true.

(** A page on which Gmail never loads. *)
Definition page_offline (s : trace) (c : call) : reply :=
  match c with
  | WaitForSelector _ _ => Raise (TimeoutError "Timeout 120000ms exceeded.")
  | _ => Ok 1
  end.

Definition world_offline : world := World page_offline clock str_list true.

(** An environment with a key, and one without. *)
Definition env_with_key : pydict := <["GROQ_API_KEY" := PStr "gsk_test"]> ∅.
Definition env_without_key : pydict := <["HOST" := PStr "127.0.0.1"]> ∅.

(** The globals after an initialisation that found no key. *)
Definition globals_without_key (w : world) : UnifiedApi.globals :=
  {| UnifiedApi.gmail_agent := None;
     UnifiedApi.gmail_env := Some env_without_key;
     UnifiedApi.gmail_init_error := Some "GROQ_API_KEY missing in environment.";
     UnifiedApi.parse_email_json := λ d, Val d;
     UnifiedApi.login_async := λ _, MainAsyncFixed.login w;
     UnifiedApi.send_email_async := MainAsyncFixed.send_email w;
     UnifiedApi.similarity_search := λ _ _, Val [];
     UnifiedApi.token := λ _ _ _, Val "" |}.

(** A store with two chunks for every question and a model that echoes
    its context; a store that is down. *)
Definition globals_two_chunks (w : world) : UnifiedApi.globals :=
  {| UnifiedApi.gmail_agent := None;
     UnifiedApi.gmail_env := None;
     UnifiedApi.gmail_init_error := None;
     UnifiedApi.parse_email_json := λ d, Val d;
     UnifiedApi.login_async := λ _, MainAsyncFixed.login w;
     UnifiedApi.send_email_async := MainAsyncFixed.send_email w;
     UnifiedApi.similarity_search := λ _ _, Val ["first"; "second"];
     UnifiedApi.token := λ _ _ context, Val context |}.

Definition globals_store_down (w : world) : UnifiedApi.globals :=
  {| UnifiedApi.gmail_agent := None;
     UnifiedApi.gmail_env := None;
     UnifiedApi.gmail_init_error := None;
     UnifiedApi.parse_email_json := λ d, Val d;
     UnifiedApi.login_async := λ _, MainAsyncFixed.login w;
     UnifiedApi.send_email_async := MainAsyncFixed.send_email w;
     UnifiedApi.similarity_search := λ _ _, Exc (ExternalError "connection refused");
     UnifiedApi.token := λ _ _ _, Val "" |}.

(** A crew that answers, and one that fails. *)
Definition crew_answers (description : string) : result string := Val "Three bullets.".
Definition crew_fails (description : string) : result string :=
  Exc (ExternalError "rate limit").

(** Collaborators of the upload that all work; the PDF has two pages, cut
    into three chunks. *)
Definition upload_ok : Upload.collaborators :=
  {| Upload.mktemp := λ _, Val "/tmp/tmpab12.pdf";
     Upload.read := Val "%PDF-1.7";
     Upload.write := λ _ _, Val tt;
     Upload.close := λ _, Val tt;
     Upload.load := λ _, Val ["page one"; "page two"];
     Upload.split_documents := λ _, Val ["a"; "b"; "c"];
     Upload.add_documents := λ _, Val tt;
     Upload.unlink := λ _, Val tt |}.

(** The store refuses the chunks. *)
Definition upload_store_down : Upload.collaborators :=
  {| Upload.mktemp := λ _, Val "/tmp/tmpab12.pdf";
     Upload.read := Val "%PDF-1.7";
     Upload.write := λ _ _, Val tt;
     Upload.close := λ _, Val tt;
     Upload.load := λ _, Val ["page one"; "page two"];
     Upload.split_documents := λ _, Val ["a"; "b"; "c"];
     Upload.add_documents := λ _, Exc (ExternalError "connection refused");
     Upload.unlink := λ _, Val tt |}.

(** The upload cannot be read. *)
Definition upload_unreadable : Upload.collaborators :=
  {| Upload.mktemp := λ _, Val "/tmp/tmpab12.pdf";
     Upload.read := Exc (ExternalError "client disconnected");
     Upload.write := λ _ _, Val tt;
     Upload.close := λ _, Val tt;
     Upload.load := λ _, Val ["page one"; "page two"];
     Upload.split_documents := λ _, Val ["a"; "b"; "c"];
     Upload.add_documents := λ _, Val tt;
     Upload.unlink := λ _, Val tt |}.

End Fake.

(** * Properties *)

(** ** Running the monad *)

Lemma bind_val {A B} (m : M A) (k : A → M B) s a s' :
  m s = (Val a, s') → bind m k s = k a s'.
Proof. intros H. unfold bind. by rewrite H. Qed.

Lemma bind_exc {A B} (m : M A) (k : A → M B) s e s' :
  m s = (Exc e, s') → bind m k s = (Exc e, s').
Proof. intros H. unfold bind. by rewrite H. Qed.

Lemma try_val {A} (m : M A) h s a s' :
  m s = (Val a, s') → try_except m h s = (Val a, s').
Proof. intros H. unfold try_except. by rewrite H. Qed.

Lemma try_exc {A} (m : M A) h s e s' :
  m s = (Exc e, s') → try_except m h s = h e s'.
Proof. intros H. unfold try_except. by rewrite H. Qed.

(** Catching an exception only to raise it again changes nothing. *)
Lemma try_reraise {A} (m : M A) s : try_except m (λ e, raise e) s = m s.
Proof. unfold try_except, raise. by destruct (m s) as [[a|e] s']. Qed.

Lemma perform_ok w c s n :
  page w s c = Ok n → perform w c s = (Val n, s ++ [c]).
Proof. intros H. unfold perform. by rewrite H. Qed.

Lemma perform_raise w c s e :
  page w s c = Raise e → perform w c s = (Exc e, s ++ [c]).
Proof. intros H. unfold perform. by rewrite H. Qed.

(** ** The field locator *)

Section Locator.
Variable w : world.

Lemma waits_app b l1 l2 : waits b (l1 ++ l2) = waits b l1 ++ waits b l2.
Proof. apply fmap_app. Qed.

Lemma try_selectors_step_ok b sel rest s n :
  page w s (WaitVisible sel b) = Ok n →
  try_selectors w b (sel :: rest) s
  = (Val (Some (LocatorFirst sel)), s ++ [WaitVisible sel b]).
Proof.
  intros H. cbn [try_selectors]. unfold try_except, bind, ret.
  by rewrite (perform_ok _ _ _ _ H).
Qed.

Lemma try_selectors_step_raise b sel rest s e :
  page w s (WaitVisible sel b) = Raise e →
  try_selectors w b (sel :: rest) s
  = try_selectors w b rest (s ++ [WaitVisible sel b]).
Proof.
  intros H. cbn [try_selectors]. unfold try_except, bind.
  by rewrite (perform_raise _ _ _ _ H).
Qed.

(** The loop stops at the first candidate that becomes visible. *)
Lemma try_selectors_first b pre sel post s :
  all_fail w b s pre = true →
  resolves w b s pre sel = true →
  try_selectors w b (pre ++ sel :: post) s
  = (Val (Some (LocatorFirst sel)), s ++ waits b (pre ++ [sel])).
Proof.
  revert s. induction pre as [|x pre IH]; intros s Hfail Hres.
  - unfold resolves in Hres. cbn in Hres. rewrite app_nil_r in Hres.
    destruct (page w s (WaitVisible sel b)) as [n|e] eqn:E; [|done].
    rewrite app_nil_l. by rewrite (try_selectors_step_ok _ _ _ _ _ E).
  - cbn [all_fail] in Hfail. apply andb_prop in Hfail as [Hx Hrest].
    destruct (page w s (WaitVisible x b)) as [n|e] eqn:E; [done|].
    rewrite <- app_comm_cons, (try_selectors_step_raise _ _ _ _ _ E).
    rewrite IH; [|done|].
    + cbn. by rewrite <- app_assoc.
    + unfold resolves in *. cbn in Hres. by rewrite <- app_assoc.
Qed.

(** What the loop returns, in full: the first visible candidate, or nothing
    after every candidate has failed. *)
Lemma try_selectors_spec b sels s :
  (all_fail w b s sels = true ∧
   try_selectors w b sels s = (Val None, s ++ waits b sels)) ∨
  (∃ pre sel post, sels = pre ++ sel :: post ∧
     all_fail w b s pre = true ∧ resolves w b s pre sel = true ∧
     try_selectors w b sels s
     = (Val (Some (LocatorFirst sel)), s ++ waits b (pre ++ [sel]))).
Proof.
  revert s. induction sels as [|x sels IH]; intros s.
  - left. split; [done|]. cbn. by rewrite app_nil_r.
  - destruct (page w s (WaitVisible x b)) as [n|e] eqn:E.
    + right. exists [], x, sels. split; [done|]. split; [done|].
      split.
      * unfold resolves. cbn. by rewrite app_nil_r, E.
      * by rewrite (try_selectors_step_ok _ _ _ _ _ E).
    + rewrite (try_selectors_step_raise _ _ _ _ _ E).
      destruct (IH (s ++ [WaitVisible x b])) as [[Hf Hr]|(pre & sel & post & -> & Hf & Hs & Hr)].
      * left. split.
        -- cbn [all_fail]. by rewrite E, Hf.
        -- rewrite Hr. cbn. by rewrite <- app_assoc.
      * right. exists (x :: pre), sel, post. split; [done|]. split.
        -- cbn [all_fail]. by rewrite E, Hf.
        -- split.
           ++ unfold resolves in *. cbn. by rewrite <- app_assoc in Hs.
           ++ rewrite Hr. cbn. by rewrite <- app_assoc.
Qed.

(** A candidate that becomes visible is not among those that all fail. *)
Lemma all_fail_resolves b pre sel post s :
  all_fail w b s (pre ++ sel :: post) = true →
  resolves w b s pre sel = true → False.
Proof.
  revert s. induction pre as [|x pre IH]; intros s Hall Hs.
  - unfold resolves in Hs. cbn in Hs, Hall. rewrite app_nil_r in Hs.
    apply andb_prop in Hall as [Hx _]. by rewrite Hx in Hs.
  - cbn in Hall. apply andb_prop in Hall as [_ Hall].
    apply (IH _ Hall). unfold resolves in *. cbn in Hs.
    by rewrite <- app_assoc.
Qed.

End Locator.

Section LocatorResult.
Variable w : world.

(** When every candidate has failed, the dialog fallback decides. *)
Lemma wait_for_element_all_fail selector timeout description s :
  let sels := selectors_of selector in
  let b := timeout `div` Z.of_nat (length sels) in
  let s1 := s ++ waits b sels in
  all_fail w b s sels = true →
  wait_for_element w selector timeout description s =
  match page w s1 (Count Dialog) with
  | Raise e => (Exc e, s1 ++ [Count Dialog])
  | Ok dialogs =>
      if 0 <? dialogs then
        match page w (s1 ++ [Count Dialog]) (Count DialogTextboxes) with
        | Raise e => (Exc e, s1 ++ [Count Dialog; Count DialogTextboxes])
        | Ok textboxes =>
            if 0 <? textboxes
            then (Val DialogTextboxFirst, s1 ++ [Count Dialog; Count DialogTextboxes])
            else (Exc (TimeoutError ("Could not find " +:+ description)),
                  s1 ++ [Count Dialog; Count DialogTextboxes])
        end
      else (Exc (TimeoutError ("Could not find " +:+ description)),
            s1 ++ [Count Dialog])
  end.
Proof.
  intros sels b s1 Hfail. unfold wait_for_element. rewrite try_reraise.
  fold sels. fold b.
  destruct (try_selectors_spec w b sels s) as [[_ Hr]|(pre & sel & post & Hsels & Hf & Hs & _)].
  - rewrite (bind_val _ _ _ _ _ Hr). fold s1.
    unfold bind, perform.
    destruct (page w s1 (Count Dialog)) as [n|e]; [|done].
    destruct (0 <? n); cbn; [|done].
    destruct (page w (s1 ++ [Count Dialog]) (Count DialogTextboxes)) as [m|e];
      rewrite <- app_assoc; cbn; [|done].
    by destruct (0 <? m).
  - exfalso. rewrite Hsels in Hfail. by eapply all_fail_resolves.
Qed.

(** The first candidate to become visible is the element returned. *)
Lemma wait_for_element_first selector timeout description pre sel post s :
  let sels := selectors_of selector in
  let b := timeout `div` Z.of_nat (length sels) in
  sels = pre ++ sel :: post →
  all_fail w b s pre = true →
  resolves w b s pre sel = true →
  wait_for_element w selector timeout description s
  = (Val (LocatorFirst sel), s ++ waits b (pre ++ [sel])).
Proof.
  intros sels b Hsels Hf Hs. unfold wait_for_element. rewrite try_reraise.
  fold sels. fold b. rewrite Hsels.
  by rewrite (bind_val _ _ _ _ _ (try_selectors_first w b pre sel post s Hf Hs)).
Qed.

(** The calls of one look-up: waits on an initial segment of the candidates,
    in order and each with the same share of the timeout, then at most the
    two counts of the fallback. *)
Lemma wait_for_element_calls selector timeout description s :
  let sels := selectors_of selector in
  let b := timeout `div` Z.of_nat (length sels) in
  ∃ k counts,
    (wait_for_element w selector timeout description s).2
    = s ++ waits b (take k sels) ++ counts ∧
    (k ≤ length sels)%nat ∧ (sels ≠ [] → (1 ≤ k)%nat) ∧
    Forall (λ c, is_count c = true) counts ∧
    (k = length sels ∨ counts = []).
Proof.
  intros sels b.
  destruct (try_selectors_spec w b sels s) as [[Hf _]|(pre & sel & post & Hsels & Hf & Hs & _)].
  - exists (length sels).
    rewrite (wait_for_element_all_fail selector timeout description s Hf).
    fold sels. fold b. rewrite firstn_all.
    assert (Hnz : sels ≠ [] → (1 ≤ length sels)%nat).
    { destruct sels; [done|]. cbn. lia. }
    destruct (page w (s ++ waits b sels) (Count Dialog)) as [n|e].
    + destruct (0 <? n).
      * exists [Count Dialog; Count DialogTextboxes].
        split.
        { destruct (page w _ (Count DialogTextboxes)) as [m|e];
            [destruct (0 <? m)|]; cbn; by rewrite <- app_assoc. }
        repeat split; auto.
      * exists [Count Dialog]. cbn. rewrite <- app_assoc. repeat split; auto.
    + exists [Count Dialog]. cbn. rewrite <- app_assoc. repeat split; auto.
  - exists (S (length pre)), [].
    rewrite (wait_for_element_first selector timeout description pre sel post s Hsels Hf Hs).
    fold sels. fold b. rewrite Hsels. cbn [snd].
    replace (take (S (length pre)) (pre ++ sel :: post)) with (pre ++ [sel]).
    2:{ rewrite take_app_ge by lia.
        replace (S (length pre) - length pre)%nat with 1%nat by lia.
        done. }
    rewrite app_nil_r. repeat split; auto.
    + rewrite length_app. cbn. lia.
    + lia.
Qed.

End LocatorResult.

(** C8.  A look-up over a non-empty candidate list with total timeout [T]
    waits on the candidates in list order, each with the budget
    [T // len(candidates)], and stops at the first one that becomes visible,
    which it returns; it raises exactly when no candidate becomes visible
    and the dialog fallback finds no text box either. *)
Theorem wait_for_element_contract (w : world) selector timeout description s :
  let sels := selectors_of selector in
  let b := timeout `div` Z.of_nat (length sels) in
  let run := wait_for_element w selector timeout description s in
  sels ≠ [] →
  (∃ k counts, (1 ≤ k ≤ length sels)%nat ∧
     run.2 = s ++ waits b (take k sels) ++ counts ∧
     Forall (λ c, is_count c = true) counts ∧
     (k = length sels ∨ counts = [])) ∧
  (∀ pre sel post, sels = pre ++ sel :: post →
     all_fail w b s pre = true → resolves w b s pre sel = true →
     run = (Val (LocatorFirst sel), s ++ waits b (pre ++ [sel]))) ∧
  ((∃ e, run.1 = Exc e) ↔
   all_fail w b s sels = true ∧ fallback_finds w (s ++ waits b sels) = false).
Proof.
  intros sels b run Hne. split; [|split].
  - destruct (wait_for_element_calls w selector timeout description s)
      as (k & counts & Hrun & Hk & Hk1 & Hc & Hor).
    exists k, counts. repeat split; auto.
  - intros pre sel post Hsels Hf Hs.
    by apply wait_for_element_first with (post := post).
  - destruct (try_selectors_spec w b sels s)
      as [[Hf _]|(pre & sel & post & Hsels & Hf & Hs & _)].
    + unfold run.
      rewrite (wait_for_element_all_fail w selector timeout description s Hf).
      fold sels. fold b. unfold fallback_finds.
      destruct (page w (s ++ waits b sels) (Count Dialog)) as [n|e];
        [destruct (0 <? n);
           [destruct (page w _ (Count DialogTextboxes)) as [m|e];
              [destruct (0 <? m)|]|]|];
        cbn; split; eauto; try (by intros [e He]); by intros [_ ?].
    + unfold run.
      rewrite (wait_for_element_first w selector timeout description pre sel post s Hsels Hf Hs).
      cbn. split.
      * by intros [e He].
      * intros [Hall _]. exfalso. fold sels in Hsels. rewrite Hsels in Hall.
        by eapply all_fail_resolves.
Qed.

(** ** Counting calls *)

Lemma count_calls_app p t1 t2 :
  count_calls p (t1 ++ t2) = (count_calls p t1 + count_calls p t2)%nat.
Proof. induction t1 as [|c t1 IH]; cbn; [done|]. rewrite IH. lia. Qed.

Lemma spends_weaken {A} p n n' (m : M A) :
  (n ≤ n')%nat → spends p n m → spends p n' m.
Proof.
  intros Hle H s. destruct (H s) as (t & Ht & Hc). exists t. split; [done|lia].
Qed.

Lemma spends_ext {A} p n (m m' : M A) :
  (∀ s, m s = m' s) → spends p n m' → spends p n m.
Proof. intros E H s. rewrite E. apply H. Qed.

Lemma spends_ret {A} p (a : A) : spends p 0 (ret a).
Proof. intros s. exists []. cbn. by rewrite app_nil_r. Qed.

Lemma spends_raise {A} p e : spends p 0 (@raise A e).
Proof. intros s. exists []. cbn. by rewrite app_nil_r. Qed.

Lemma spends_lift {A} p (r : result A) : spends p 0 (lift r).
Proof. intros s. exists []. cbn. by rewrite app_nil_r. Qed.

Lemma spends_now p w : spends p 0 (now w).
Proof. intros s. exists []. cbn. by rewrite app_nil_r. Qed.

Lemma spends_subscript p d k : spends p 0 (subscript d k).
Proof. unfold subscript. destruct (d !! k); [apply spends_ret|apply spends_raise]. Qed.

Lemma spends_perform p w c : spends p (if p c then 1 else 0) (perform w c).
Proof.
  intros s. exists [c]. unfold perform.
  destruct (page w s c); cbn; (split; [done|]); destruct (p c); lia.
Qed.

Lemma spends_perform_0 p w c : p c = false → spends p 0 (perform w c).
Proof. intros H. generalize (spends_perform p w c). by rewrite H. Qed.

Lemma spends_bind {A B} p n k (m : M A) (f : A → M B) :
  spends p n m → (∀ a, spends p k (f a)) → spends p (n + k) (bind m f).
Proof.
  intros Hm Hf s. destruct (Hm s) as (t & Ht & Hc). unfold bind.
  destruct (m s) as [[a|e] s1]; cbn in Ht; subst s1.
  - destruct (Hf a (s ++ t)) as (t' & Ht' & Hc'). exists (t ++ t').
    rewrite Ht', count_calls_app, app_assoc. split; [done|lia].
  - exists t. cbn. split; [done|lia].
Qed.

Lemma spends_try {A} p n k (m : M A) (h : exn → M A) :
  spends p n m → (∀ e, spends p k (h e)) → spends p (n + k) (try_except m h).
Proof.
  intros Hm Hh s. destruct (Hm s) as (t & Ht & Hc). unfold try_except.
  destruct (m s) as [[a|e] s1]; cbn in Ht; subst s1.
  - exists t. cbn. split; [done|lia].
  - destruct (Hh e (s ++ t)) as (t' & Ht' & Hc'). exists (t ++ t').
    rewrite Ht', count_calls_app, app_assoc. split; [done|lia].
Qed.

(** What a run adds to the history. *)
Lemma spends_run {A} p n (m : M A) s r s' :
  spends p n m → m s = (r, s') → ∃ t, s' = s ++ t ∧ (count_calls p t ≤ n)%nat.
Proof. intros H E. destruct (H s) as (t & Ht & Hc). rewrite E in Ht. eauto. Qed.

Lemma run_quiet {A} p (m : M A) s r s' :
  m s = (r, s') → spends p 0 m → ∃ t, s' = s ++ t ∧ count_calls p t = 0%nat.
Proof.
  intros E H. destruct (spends_run _ _ _ _ _ _ H E) as (t & -> & Ht).
  exists t. split; [done|lia].
Qed.

Lemma bind_inv {A B} (m : M A) (k : A → M B) s r s' :
  bind m k s = (Val r, s') → ∃ a s1, m s = (Val a, s1) ∧ k a s1 = (Val r, s').
Proof.
  unfold bind. destruct (m s) as [[a|e] s1]; [|done]. intros H. by exists a, s1.
Qed.

(** ** Footprint of the pipeline *)

(** Compositional footprint proofs; [tac] shows that a call is not counted. *)
Ltac footprint_by tac :=
  repeat first
    [ match goal with H : _ |- _ => solve [apply H] end
    | apply spends_ret
    | apply spends_raise
    | apply spends_subscript
    | apply spends_perform_0; solve [tac]
    | apply (spends_bind _ 0 0); [|intros ?]
    | apply (spends_try _ 0 0); [|intros ?]
    | match goal with
      | |- spends _ _ (if ?b then _ else _) => destruct b
      | |- spends _ _ (match ?x with Some _ => _ | None => _ end) => destruct x
      end ].

Lemma asyncio_sleep_spends (w : world) p n :
  p (Sleep n) = false → spends p 0 (asyncio_sleep w n).
Proof.
  intros H s. unfold asyncio_sleep. destruct (asyncio_bound w).
  - exists [Sleep n]. cbn. rewrite H. split; [done|lia].
  - exists []. cbn. rewrite app_nil_r. split; [done|lia].
Qed.

(** Where [asyncio] is bound the sleep completes; where it is not, it
    raises and nothing is called. *)
Lemma asyncio_sleep_bound (w : world) n s :
  asyncio_bound w = true → asyncio_sleep w n s = (Val tt, s ++ [Sleep n]).
Proof. unfold asyncio_sleep. by intros ->. Qed.

Lemma asyncio_sleep_unbound (w : world) n s :
  asyncio_bound w = false → asyncio_sleep w n s = (Exc (NameError "asyncio"), s).
Proof. unfold asyncio_sleep. by intros ->. Qed.

Lemma asyncio_sleep_inv (w : world) n s s' :
  asyncio_sleep w n s = (Val tt, s') → asyncio_bound w = true ∧ s' = s ++ [Sleep n].
Proof. unfold asyncio_sleep. destruct (asyncio_bound w); [|done]. by inversion 1. Qed.

(** A look-up issues look-up calls only. *)
Section LookupFootprint.
Variable w : world.
Variable p : call → bool.
Hypothesis no_wait : ∀ sel b, p (WaitVisible sel b) = false.
Hypothesis no_count : ∀ x, p (Count x) = false.

Lemma try_selectors_quiet b sels : spends p 0 (try_selectors w b sels).
Proof.
  induction sels as [|sel sels IH]; cbn [try_selectors];
    footprint_by ltac:(apply no_wait).
Qed.

Lemma wait_for_element_quiet selector timeout description :
  spends p 0 (wait_for_element w selector timeout description).
Proof.
  unfold wait_for_element. pose proof try_selectors_quiet.
  footprint_by ltac:(apply no_count).
Qed.

End LookupFootprint.

(** The field-fill executor looks up, clicks, clears, fills and sleeps. *)
Section FillFootprint.
Variable w : world.
Variable p : call → bool.
Hypothesis no_wait : ∀ sel b, p (WaitVisible sel b) = false.
Hypothesis no_count : ∀ x, p (Count x) = false.
Hypothesis no_click : ∀ el, p (Click el) = false.
Hypothesis no_clear : ∀ el, p (Clear el) = false.
Hypothesis no_fill : ∀ el v, p (Fill el v) = false.
Hypothesis no_sleep : ∀ n, p (Sleep n) = false.

Lemma fill_field_attempt_quiet field_type value :
  spends p 0 (fill_field_attempt w field_type value).
Proof.
  unfold fill_field_attempt.
  pose proof (wait_for_element_quiet w p no_wait no_count).
  footprint_by ltac:(first [apply no_click|apply no_clear|apply no_fill]).
Qed.

Lemma fill_field_attempts_quiet field_type value max_retries attempts :
  spends p 0 (fill_field_attempts w field_type value max_retries attempts).
Proof.
  pose proof fill_field_attempt_quiet.
  pose proof (λ n, asyncio_sleep_spends w p n (no_sleep n)).
  induction attempts as [|attempt rest IH]; cbn [fill_field_attempts];
    footprint_by fail.
Qed.

Lemma fill_field_with_retry_quiet field_type value max_retries :
  spends p 0 (fill_field_with_retry w field_type value max_retries).
Proof. apply fill_field_attempts_quiet. Qed.

End FillFootprint.

Section Footprint.
Variable w : world.
Variable p : call → bool.
Hypothesis quiet : ∀ c, pipeline_call c = true → p c = false.

Lemma fill_addresses_quiet selectors description emails :
  spends p 0 (fill_addresses w selectors description emails).
Proof.
  pose proof (wait_for_element_quiet w p
                (λ sel b, quiet (WaitVisible sel b) eq_refl)
                (λ x, quiet (Count x) eq_refl)).
  induction emails as [|email rest IH]; cbn [fill_addresses];
    footprint_by ltac:(apply quiet; reflexivity).
Qed.

(** One attempt issues pipeline calls only, and then at most the wait for
    the confirmation marker. *)
Lemma send_email_attempt_footprint email_data :
  spends p (if p (WaitForSelector "span.bAq" 10000) then 1 else 0)
    (send_email_attempt w email_data).
Proof.
  pose proof (wait_for_element_quiet w p
                (λ sel b, quiet (WaitVisible sel b) eq_refl)
                (λ x, quiet (Count x) eq_refl)).
  pose proof (λ n, asyncio_sleep_spends w p n (quiet (Sleep n) eq_refl)).
  pose proof fill_addresses_quiet.
  pose proof (fill_field_with_retry_quiet w p
                (λ sel b, quiet (WaitVisible sel b) eq_refl)
                (λ x, quiet (Count x) eq_refl)
                (λ el, quiet (Click el) eq_refl)
                (λ el, quiet (Clear el) eq_refl)
                (λ el v, quiet (Fill el v) eq_refl)
                (λ n, quiet (Sleep n) eq_refl)).
  unfold send_email_attempt.
  do 16 (apply (spends_bind _ 0);
         [solve [footprint_by ltac:(apply quiet; reflexivity)]|intros ?]).
  replace (if p (WaitForSelector "span.bAq" 10000) then 1%nat else 0%nat)
    with ((if p (WaitForSelector "span.bAq" 10000) then 1 else 0) + 0)%nat by lia.
  apply spends_bind; [apply spends_perform|intros ?; apply spends_ret].
Qed.

End Footprint.

(** ** The retry executors *)

Section Retry.
Variable w : world.

Lemma fill_field_attempts_success field_type value max_retries attempt rest s b s' :
  fill_field_attempt w field_type value s = (Val b, s') →
  fill_field_attempts w field_type value max_retries (attempt :: rest) s = (Val b, s').
Proof. intros H. cbn [fill_field_attempts]. by rewrite (try_val _ _ _ _ _ H). Qed.

(** A failure before the last attempt, where [asyncio] is bound: back off,
    then go on. *)
Lemma fill_field_attempts_retry field_type value max_retries attempt rest s e s1 :
  asyncio_bound w = true →
  Z.of_nat attempt ≠ max_retries - 1 →
  fill_field_attempt w field_type value s = (Exc e, s1) →
  fill_field_attempts w field_type value max_retries (attempt :: rest) s
  = fill_field_attempts w field_type value max_retries rest (s1 ++ [Sleep 1]).
Proof.
  intros Hb Hne H. cbn [fill_field_attempts]. rewrite (try_exc _ _ _ _ _ H).
  apply Z.eqb_neq in Hne as ->. unfold bind. by rewrite asyncio_sleep_bound.
Qed.

(** The same failure where [asyncio] is not bound: the handler itself
    raises, and the loop is left. *)
Lemma fill_field_attempts_stop field_type value max_retries attempt rest s e s1 :
  asyncio_bound w = false →
  Z.of_nat attempt ≠ max_retries - 1 →
  fill_field_attempt w field_type value s = (Exc e, s1) →
  fill_field_attempts w field_type value max_retries (attempt :: rest) s
  = (Exc (NameError "asyncio"), s1).
Proof.
  intros Hb Hne H. cbn [fill_field_attempts]. rewrite (try_exc _ _ _ _ _ H).
  apply Z.eqb_neq in Hne as ->. unfold bind. by rewrite asyncio_sleep_unbound.
Qed.

Lemma fill_field_attempts_last field_type value max_retries attempt rest s e s1 :
  Z.of_nat attempt = max_retries - 1 →
  fill_field_attempt w field_type value s = (Exc e, s1) →
  fill_field_attempts w field_type value max_retries (attempt :: rest) s = (Exc e, s1).
Proof.
  intros Heq H. cbn [fill_field_attempts]. rewrite (try_exc _ _ _ _ _ H).
  by apply Z.eqb_eq in Heq as ->.
Qed.

(** The loop from attempt [i] on, when the action fails [k] more times and
    then succeeds. *)
Lemma fill_field_attempts_fails_then_succeeds field_type value (max_retries : nat) k :
  asyncio_bound w = true ∨ k = 0%nat →
  ∀ i s b s',
    (i + k < max_retries)%nat →
    fails_then_succeeds (fill_field_attempt w field_type value) 1 k s = Some (b, s') →
    fill_field_attempts w field_type value (Z.of_nat max_retries)
      (seq i (max_retries - i)) s
    = (Val b, s').
Proof.
  induction k as [|k IH]; intros Hb i s b s' Hlt H; cbn [fails_then_succeeds] in H;
    destruct (fill_field_attempt w field_type value s) as [[a|e] s1] eqn:E; try done;
    replace (max_retries - i)%nat with (S (max_retries - S i)) by lia;
    cbn [seq].
  - inversion H; subst. by apply fill_field_attempts_success.
  - destruct Hb as [Hb|?]; [|done].
    rewrite (fill_field_attempts_retry _ _ _ _ _ _ _ s1) by (done || lia).
    apply IH; [by left|lia|done].
Qed.

(** The loop from attempt [i] on, when the action fails on every attempt
    that is left. *)
Lemma fill_field_attempts_fails_every_time field_type value (max_retries : nat) n :
  asyncio_bound w = true ∨ n = 1%nat →
  ∀ i s e s',
    (i + n = max_retries)%nat →
    fails_every_time (fill_field_attempt w field_type value) 1 n s = Some (e, s') →
    fill_field_attempts w field_type value (Z.of_nat max_retries) (seq i n) s
    = (Exc e, s').
Proof.
  induction n as [|n IH]; intros Hb i s e s' Hi H; [done|].
  cbn [fails_every_time] in H.
  destruct (fill_field_attempt w field_type value s) as [[a|e1] s1] eqn:E.
  { by destruct n. }
  cbn [seq]. destruct n as [|n].
  - inversion H; subst. apply fill_field_attempts_last; [lia|done].
  - destruct Hb as [Hb|?]; [|done].
    rewrite (fill_field_attempts_retry _ _ _ _ _ _ _ s1) by (done || lia).
    apply IH; [by left|lia|done].
Qed.

(** Where [asyncio] is not bound, a failed attempt that is not the last
    ends the executor: one attempt, and the [NameError] of the handler. *)
Lemma fill_field_with_retry_unbound field_type value max_retries s e s1 :
  asyncio_bound w = false →
  2 ≤ max_retries →
  fill_field_attempt w field_type value s = (Exc e, s1) →
  fill_field_with_retry w field_type value max_retries s
  = (Exc (NameError "asyncio"), s1).
Proof.
  intros Hb Hmax H. unfold fill_field_with_retry.
  replace (Z.to_nat max_retries) with (S (Z.to_nat (max_retries - 1))) by lia.
  cbn [seq]. apply (fill_field_attempts_stop _ _ _ _ _ _ e); [done|lia|done].
Qed.

End Retry.

(** ** Counting the attempts of the field-fill executor *)

Lemma count_calls_none p t :
  Forall (λ c, p c = false) t → count_calls p t = 0%nat.
Proof. induction 1 as [|c t Hc _ IH]; cbn; [done|]. by rewrite Hc, IH. Qed.

Lemma count_calls_counts p t :
  (∀ x, p (Count x) = false) → Forall (λ c, is_count c = true) t →
  count_calls p t = 0%nat.
Proof.
  intros Hp Ht. apply count_calls_none. eapply Forall_impl; [exact Ht|].
  intros [] Hc; try done; apply Hp.
Qed.

Section Attempts.
Variable w : world.

(** After the look-up, an attempt clicks, clears and fills: no new start. *)
Lemma fill_after_lookup_no_start field_type field text :
  spends (attempt_start field_type) 0
    (perform w (Click field) >> perform w (Clear field) >>
     perform w (Fill field text) >> ret true).
Proof.
  repeat (apply (spends_bind _ 0 0); [by apply spends_perform_0|intros ?]).
  apply spends_ret.
Qed.

(** The look-up of an attempt issues the attempt's first call once. *)
Lemma lookup_starts_once field_type sels description s :
  (field_type = "to" ∧ sels = to_field_selectors ∨
   field_type = "subject" ∧ sels = subject_selectors ∨
   field_type = "body" ∧ sels = body_selectors) →
  ∃ t, (wait_for_element w (Strs sels) 5000 description s).2 = s ++ t ∧
       count_calls (attempt_start field_type) t = 1%nat.
Proof.
  intros Hft.
  destruct (wait_for_element_calls w (Strs sels) 5000 description s)
    as (k & counts & Hrun & Hk & Hk1 & Hc & _).
  exists (waits (5000 `div` Z.of_nat (length sels)) (take k sels) ++ counts).
  split; [done|]. rewrite count_calls_app.
  rewrite (count_calls_counts _ counts); [|done|done].
  destruct Hft as [[-> ->]|[[-> ->]|[-> ->]]];
    (assert (1 ≤ k)%nat by (apply Hk1; discriminate));
    cbn [selectors_of to_field_selectors subject_selectors body_selectors length] in Hk;
    (destruct k as [|k]; [lia|]);
    do 4 (destruct k as [|k]; [vm_compute; reflexivity|]); lia.
Qed.

(** Each attempt on a known field shows in the history as one start. *)
Lemma fill_field_attempt_starts_once field_type value s :
  known_field field_type →
  ∃ t, (fill_field_attempt w field_type value s).2 = s ++ t ∧
       count_calls (attempt_start field_type) t = 1%nat.
Proof.
  intros Hk. unfold fill_field_attempt.
  assert (∃ sels description,
    (field_type = "to" ∧ sels = to_field_selectors ∨
     field_type = "subject" ∧ sels = subject_selectors ∨
     field_type = "body" ∧ sels = body_selectors) ∧
    (if String.eqb field_type "to" then
       let! f := wait_for_element w (Strs to_field_selectors) 5000 "To field" in ret (Some f)
     else if String.eqb field_type "subject" then
       let! f := wait_for_element w (Strs subject_selectors) 5000 "Subject field" in ret (Some f)
     else if String.eqb field_type "body" then
       let! f := wait_for_element w (Strs body_selectors) 5000 "Message body" in ret (Some f)
     else ret None)
    = (let! f := wait_for_element w (Strs sels) 5000 description in ret (Some f)))
    as (sels & description & Hsels & ->).
  { destruct Hk as [-> | [-> | ->]]; cbn; eauto 10. }
  destruct (lookup_starts_once field_type sels description s Hsels) as (t & Ht & Hc).
  unfold bind at 1 2.
  destruct (wait_for_element w (Strs sels) 5000 description s) as [[field|e] s1];
    cbn in Ht; subst s1; cbn.
  - destruct (fill_after_lookup_no_start field_type field
                (PStr (py_str w value)) (s ++ t)) as (t' & Ht' & Hc').
    exists (t ++ t'). rewrite Ht', count_calls_app, app_assoc. split; [done|lia].
  - exists t. done.
Qed.

(** An attempt that returns, returns [True]. *)
Lemma fill_field_attempt_true field_type value s b s' :
  fill_field_attempt w field_type value s = (Val b, s') → b = true.
Proof.
  unfold fill_field_attempt. unfold bind at 1.
  match goal with |- context [match ?m s with _ => _ end] => destruct (m s) as [[[field|]|e] s1] end;
    [|done|done].
  unfold bind, ret.
  repeat match goal with
         | |- context [perform w ?c ?s] => destruct (perform w c s) as [[?|?] ?]
         end; congruence.
Qed.

(** On an unknown field the attempt raises at once. *)
Lemma fill_field_attempt_unknown field_type value s :
  ¬ known_field field_type →
  fill_field_attempt w field_type value s = (Exc (UnboundLocalError "field"), s).
Proof.
  intros Hk. unfold fill_field_attempt.
  destruct (String.eqb_spec field_type "to") as [->|_].
  { destruct Hk. by left. }
  destruct (String.eqb_spec field_type "subject") as [->|_].
  { destruct Hk. right. by left. }
  destruct (String.eqb_spec field_type "body") as [->|_].
  { destruct Hk. right. by right. }
  done.
Qed.

Lemma known_field_dec field_type : known_field field_type ∨ ¬ known_field field_type.
Proof.
  unfold known_field.
  destruct (String.eqb_spec field_type "to"); [by auto|].
  destruct (String.eqb_spec field_type "subject"); [by auto|].
  destruct (String.eqb_spec field_type "body"); [by auto|].
  right. intros [?|[?|?]]; done.
Qed.

Lemma fails_then_succeeds_unknown field_type value k s :
  ¬ known_field field_type →
  fails_then_succeeds (fill_field_attempt w field_type value) 1 k s = None.
Proof.
  intros Hk. revert s.
  induction k as [|k IH]; intros s; cbn [fails_then_succeeds];
    rewrite fill_field_attempt_unknown by done; [done|apply IH].
Qed.

(** [k] failures and a success are [k + 1] starts. *)
Lemma fails_then_succeeds_starts field_type value k :
  ∀ s b s',
    fails_then_succeeds (fill_field_attempt w field_type value) 1 k s = Some (b, s') →
    ∃ t, s' = s ++ t ∧ count_calls (attempt_start field_type) t = (k + 1)%nat.
Proof.
  destruct (known_field_dec field_type) as [Hk|Hk].
  2:{ intros s b s' H. by rewrite fails_then_succeeds_unknown in H. }
  induction k as [|k IH]; intros s b s' H; cbn [fails_then_succeeds] in H;
    destruct (fill_field_attempt_starts_once field_type value s Hk) as (t & Ht & Hc);
    destruct (fill_field_attempt w field_type value s) as [[a|e] s1];
    cbn in Ht; subst s1; try done.
  - inversion H; subst. exists t. split; [done|lia].
  - destruct (IH _ _ _ H) as (t' & -> & Hc').
    exists (t ++ [Sleep 1] ++ t'). split.
    + by rewrite <- !app_assoc.
    + rewrite !count_calls_app, Hc, Hc'. cbn. lia.
Qed.

End Attempts.

(** The value of the run that succeeds is [True]. *)
Lemma fails_then_succeeds_true (w : world) field_type value k :
  ∀ s b s',
    fails_then_succeeds (fill_field_attempt w field_type value) 1 k s = Some (b, s') →
    b = true.
Proof.
  induction k as [|k IH]; intros s b s' H; cbn [fails_then_succeeds] in H;
    destruct (fill_field_attempt w field_type value s) as [[a|e] s1] eqn:E; try done.
  - inversion H; subst. by eapply fill_field_attempt_true.
  - by eapply IH.
Qed.

(** C7.  In a process that has imported the module without binding the
    name [asyncio], the executor does not do what the specification says
    from one failure on: although the field-fill action would fail [k] times, [k]
    at least one and below [max_retries], and then succeed, the executor
    makes one attempt and raises the [NameError] of the [asyncio.sleep(1)]
    of its handler. *)
Theorem fill_field_with_retry_stops_without_asyncio (w : world) field_type value
    (max_retries : Z) (k : nat) s b s' :
  asyncio_bound w = false →
  (1 ≤ k)%nat → Z.of_nat k < max_retries →
  fails_then_succeeds (fill_field_attempt w field_type value) 1 k s = Some (b, s') →
  ∃ t, fill_field_with_retry w field_type value max_retries s
       = (Exc (NameError "asyncio"), s ++ t) ∧
       count_calls (attempt_start field_type) t = 1%nat.
Proof.
  intros Hb Hk Hmax H.
  destruct (known_field_dec field_type) as [Hknown|Hknown];
    [|by rewrite fails_then_succeeds_unknown in H].
  destruct k as [|k]; [lia|]. cbn [fails_then_succeeds] in H.
  destruct (fill_field_attempt_starts_once w field_type value s Hknown) as (t & Ht & Hc).
  destruct (fill_field_attempt w field_type value s) as [[a|e] s1] eqn:E; [done|].
  cbn [snd] in Ht. subst s1. exists t. split; [|done].
  apply (fill_field_with_retry_unbound w _ _ _ _ e); [done|lia|done].
Qed.

(** ** The snapshot *)

Section Snapshot.
Variable w : world.

(** The three ways [save_screenshot] can go. *)
Lemma save_screenshot_cases label s :
  let s1 := s ++ [MakeDirs "screens"] in
  let path := snapshot_path w label s in
  save_screenshot w label s =
  match page w s (MakeDirs "screens") with
  | Raise _ => (Val None, s1)
  | Ok _ =>
      match page w s1 (Screenshot path) with
      | Raise _ => (Val None, s1 ++ [Screenshot path])
      | Ok _ => (Val (Some path), s1 ++ [Screenshot path])
      end
  end.
Proof.
  intros s1 path. subst s1 path.
  unfold snapshot_path, save_screenshot, try_except, bind, perform, now, ret.
  destruct (page w s (MakeDirs "screens")); [|done].
  by destruct (page w _ (Screenshot _)).
Qed.

(** It returns, and shows in the history as one start. *)
Lemma save_screenshot_once label s :
  ∃ r t, save_screenshot w label s = (Val r, s ++ t) ∧
         count_calls snapshot_start t = 1%nat.
Proof.
  rewrite save_screenshot_cases.
  destruct (page w s (MakeDirs "screens")).
  - destruct (page w _ (Screenshot _)); eexists _, [_; _];
      rewrite <- app_assoc; done.
  - by eexists _, [_].
Qed.

End Snapshot.

(** ** The send executor *)

Section SendRetry.
Variable w : world.

Lemma send_email_attempts_success email_data max_retries attempt rest s r s' :
  send_email_attempt w email_data s = (Val r, s') →
  send_email_attempts w email_data max_retries (attempt :: rest) s = (Val r, s').
Proof. intros H. cbn [send_email_attempts]. by rewrite (try_val _ _ _ _ _ H). Qed.

(** A failure before the last attempt, where [asyncio] is bound: back off,
    then start over. *)
Lemma send_email_attempts_retry email_data max_retries attempt rest s e s1 :
  asyncio_bound w = true →
  Z.of_nat attempt ≠ Z.of_nat max_retries - 1 →
  send_email_attempt w email_data s = (Exc e, s1) →
  send_email_attempts w email_data max_retries (attempt :: rest) s
  = send_email_attempts w email_data max_retries rest (s1 ++ [Sleep 2]).
Proof.
  intros Hb Hne H. cbn [send_email_attempts]. rewrite (try_exc _ _ _ _ _ H).
  apply Z.eqb_neq in Hne as ->. unfold bind. by rewrite asyncio_sleep_bound.
Qed.

(** The same failure where [asyncio] is not bound: the handler itself
    raises, before any snapshot. *)
Lemma send_email_attempts_stop email_data max_retries attempt rest s e s1 :
  asyncio_bound w = false →
  Z.of_nat attempt ≠ Z.of_nat max_retries - 1 →
  send_email_attempt w email_data s = (Exc e, s1) →
  send_email_attempts w email_data max_retries (attempt :: rest) s
  = (Exc (NameError "asyncio"), s1).
Proof.
  intros Hb Hne H. cbn [send_email_attempts]. rewrite (try_exc _ _ _ _ _ H).
  apply Z.eqb_neq in Hne as ->. unfold bind. by rewrite asyncio_sleep_unbound.
Qed.

(** A failure of the last attempt: snapshot, then the same exception. *)
Lemma send_email_attempts_last email_data max_retries attempt rest s e s1 :
  Z.of_nat attempt = Z.of_nat max_retries - 1 →
  send_email_attempt w email_data s = (Exc e, s1) →
  send_email_attempts w email_data max_retries (attempt :: rest) s
  = (Exc e,
     (save_screenshot w ("send_error_attempt_" +:+ pretty (Z.of_nat attempt + 1)) s1).2).
Proof.
  intros Heq H. cbn [send_email_attempts]. rewrite (try_exc _ _ _ _ _ H).
  apply Z.eqb_eq in Heq as ->.
  destruct (save_screenshot_once w
              ("send_error_attempt_" +:+ pretty (Z.of_nat attempt + 1)) s1)
    as (r & t & Hr & _).
  by rewrite (bind_val _ _ _ _ _ Hr), Hr.
Qed.

Lemma send_email_attempts_fails_every_time email_data max_retries n :
  asyncio_bound w = true →
  ∀ i s e s',
    (i + n = max_retries)%nat →
    fails_every_time (send_email_attempt w email_data) 2 n s = Some (e, s') →
    send_email_attempts w email_data max_retries (seq i n) s
    = (Exc e,
       (save_screenshot w
          ("send_error_attempt_" +:+ pretty (Z.of_nat max_retries)) s').2).
Proof.
  intros Hb.
  induction n as [|n IH]; intros i s e s' Hi H; [done|].
  cbn [fails_every_time] in H.
  destruct (send_email_attempt w email_data s) as [[a|e1] s1] eqn:E.
  { by destruct n. }
  cbn [seq]. destruct n as [|n].
  - inversion H; subst.
    rewrite (send_email_attempts_last _ _ _ _ _ e s') by (done || lia).
    by replace (Z.of_nat i + 1) with (Z.of_nat (i + 1)) by lia.
  - rewrite (send_email_attempts_retry _ _ _ _ _ e1 s1) by (done || lia).
    apply IH; [lia|done].
Qed.

(** Runs that all fail leave no call that satisfies [p], when neither the
    action nor the back-off issues one. *)
Lemma fails_every_time_footprint {A} p (action : M A) backoff n :
  spends p 0 action → p (Sleep backoff) = false →
  ∀ s e s', fails_every_time action backoff n s = Some (e, s') →
            ∃ t, s' = s ++ t ∧ count_calls p t = 0%nat.
Proof.
  intros Ha Hs. induction n as [|n IH]; intros s e s' H; [done|].
  cbn [fails_every_time] in H.
  destruct (action s) as [[a|e1] s1] eqn:E.
  { by destruct n. }
  destruct (spends_run _ _ _ _ _ _ Ha E) as (t & -> & Ht).
  destruct n as [|n].
  - inversion H; subst. exists t. split; [done|lia].
  - destruct (IH _ _ _ H) as (t' & -> & Ht').
    exists (t ++ [Sleep backoff] ++ t'). split.
    + by rewrite <- !app_assoc.
    + rewrite !count_calls_app, Ht'. cbn. rewrite Hs. lia.
Qed.

End SendRetry.

(** ** The order of the recipients *)

Section Recipients.
Variable w : world.

Lemma perform_inv c s r s' : perform w c s = (r, s') → s' = s ++ [c].
Proof. unfold perform. destruct (page w s c); congruence. Qed.

Lemma waits_lookup sels timeout l :
  l ⊆ sels →
  Forall (λ c, is_lookup sels timeout c = true)
    (waits (timeout `div` Z.of_nat (length sels)) l).
Proof.
  intros Hl. apply Forall_fmap, Forall_forall. intros x Hx. cbn.
  rewrite bool_decide_eq_true_2 by (by apply Hl). cbn. apply Z.eqb_refl.
Qed.

(** A look-up that returns an element has found it. *)
Lemma wait_for_element_found selector timeout description s field s' :
  wait_for_element w selector timeout description s = (Val field, s') →
  ∃ lookup, s' = s ++ lookup ∧
            found_by (selectors_of selector) timeout lookup field.
Proof.
  intros H.
  set (sels := selectors_of selector) in *.
  set (b := timeout `div` Z.of_nat (length sels)).
  destruct (try_selectors_spec w b sels s)
    as [[Hf _]|(pre & sel & post & Hsels & Hf & Hs & _)].
  - rewrite (wait_for_element_all_fail w selector timeout description s Hf) in H.
    fold sels in H. fold b in H.
    destruct (page w (s ++ waits b sels) (Count Dialog)) as [n|e]; [|done].
    destruct (0 <? n); [|done].
    destruct (page w _ (Count DialogTextboxes)) as [m|e]; [|done].
    destruct (0 <? m); [|done].
    inversion H; subst.
    exists (waits b sels ++ [Count Dialog; Count DialogTextboxes]).
    split; [by rewrite app_assoc|]. split.
    + apply Forall_app. split; [by apply waits_lookup|]. by repeat constructor.
    + by rewrite last_app.
  - rewrite (wait_for_element_first w selector timeout description pre sel post s Hsels Hf Hs) in H.
    inversion H; subst. fold sels. fold b.
    exists (waits b (pre ++ [sel])). split; [done|]. split.
    + apply waits_lookup. fold sels in Hsels. rewrite Hsels.
      intros x Hx. apply elem_of_app in Hx as [Hx|Hx%list_elem_of_singleton].
      * apply elem_of_app. by left.
      * subst x. apply elem_of_app. right. by left.
    + rewrite waits_app. by rewrite last_app.
Qed.

(** The loop over the addresses of one field. *)
Lemma fill_addresses_in_order f description emails :
  ∀ s s', fill_addresses w (recipient_selectors f) description emails s = (Val tt, s') →
          ∃ t, s' = s ++ t ∧ entered_in_order (pair f <$> emails) t.
Proof.
  induction emails as [|email rest IH]; intros s s' H; cbn [fill_addresses] in H.
  - inversion H; subst. exists []. split; [by rewrite app_nil_r|constructor].
  - apply bind_inv in H as (field & s1 & Hw & H).
    apply bind_inv in H as (? & s2 & Hclick & H).
    apply bind_inv in H as (? & s3 & Hfill & H).
    apply bind_inv in H as (? & s4 & Hpress & H).
    apply wait_for_element_found in Hw as (lookup & -> & Hlookup).
    apply perform_inv in Hclick as ->. apply perform_inv in Hfill as ->.
    apply perform_inv in Hpress as ->.
    destruct (IH _ _ H) as (t & -> & Ht).
    exists ((lookup ++ [Click field; Fill field email; Press "Enter"]) ++ t).
    split; [by rewrite <- !app_assoc|].
    rewrite fmap_cons. constructor; [by constructor|done].
Qed.

(** The loop over the addresses of an optional field. *)
Lemma optional_addresses_in_order f key description (email_data : pydict) s s' :
  (if truthy (dict_get email_data key) then
     let! emails := subscript email_data key in
     fill_addresses w (recipient_selectors f) description (as_list emails)
   else ret tt) s = (Val tt, s') →
  ∃ t, s' = s ++ t ∧
       entered_in_order (pair f <$> optional_addresses (dict_get email_data key)) t.
Proof.
  unfold optional_addresses, dict_get, subscript.
  destruct (email_data !! key) as [v|]; cbn; [|].
  - destruct (truthy v).
    + intros H. rewrite (bind_val _ _ _ v s) in H by done.
      by apply fill_addresses_in_order in H.
    + intros H. inversion H; subst. exists []. split; [by rewrite app_nil_r|constructor].
  - intros H. inversion H; subst. exists []. split; [by rewrite app_nil_r|constructor].
Qed.

Lemma entered_in_order_app l1 l2 t1 t2 :
  entered_in_order l1 t1 → entered_in_order l2 t2 →
  entered_in_order (l1 ++ l2) (t1 ++ t2).
Proof.
  induction 1 as [|f a rest t t' Ht _ IH]; intros H2; [done|].
  rewrite <- app_assoc, <- app_comm_cons. constructor; [done|by apply IH].
Qed.

End Recipients.

Lemma subscript_inv (d : pydict) k s v s' :
  subscript d k s = (Val v, s') → d !! k = Some v ∧ s' = s.
Proof. unfold subscript. destruct (d !! k); cbn; [|done]. by inversion 1. Qed.

(** A successful attempt, for a message of any shape: nothing is entered
    before the recipients, the recipients are entered in the order of
    [recipients_of], and Enter is not pressed again after them. *)
Lemma send_email_attempt_recipients (w : world) (email_data : pydict) s r s' :
  send_email_attempt w email_data s = (Val r, s') →
  ∃ before addressed after,
    s' = s ++ before ++ addressed ++ after ∧
    count_calls is_entry before = 0%nat ∧
    entered_in_order (recipients_of email_data) addressed ∧
    count_calls is_press after = 0%nat.
Proof.
  intros H. unfold send_email_attempt in H.
  apply bind_inv in H as (compose_btn & s1 & H1 & H).
  apply bind_inv in H as (? & s2 & H2 & H).
  apply bind_inv in H as (? & s3 & H3 & H).
  apply bind_inv in H as ([] & s4 & H4 & H).
  apply bind_inv in H as (to_emails & s5 & H5 & H).
  apply bind_inv in H as ([] & s6 & H6 & H).
  apply bind_inv in H as ([] & s7 & H7 & H).
  apply bind_inv in H as ([] & s8 & H8 & H).
  apply (run_quiet is_entry) in H1 as (t1 & -> & Ht1);
    [|by apply wait_for_element_quiet].
  apply perform_inv in H2 as ->.
  apply (run_quiet is_entry) in H3 as (t3 & -> & Ht3);
    [|by apply wait_for_element_quiet].
  apply asyncio_sleep_inv in H4 as [_ ->].
  apply subscript_inv in H5 as [Hto ->].
  apply (fill_addresses_in_order w ToField) in H6 as (t6 & -> & Ht6).
  apply (optional_addresses_in_order w CcField "cc") in H7 as (t7 & -> & Ht7).
  apply (optional_addresses_in_order w BccField "bcc") in H8 as (t8 & -> & Ht8).
  apply (run_quiet is_press) in H as (t9 & -> & Ht9).
  2:{ pose proof (wait_for_element_quiet w is_press (λ _ _, eq_refl) (λ _, eq_refl)).
      pose proof (fill_field_with_retry_quiet w is_press (λ _ _, eq_refl) (λ _, eq_refl)
                    (λ _, eq_refl) (λ _, eq_refl) (λ _ _, eq_refl) (λ _, eq_refl)).
      footprint_by ltac:(reflexivity). }
  exists (t1 ++ [Click compose_btn] ++ t3 ++ [Sleep 1]), (t6 ++ t7 ++ t8), t9.
  split; [by rewrite <- !app_assoc|]. split.
  { rewrite !count_calls_app, Ht1, Ht3. done. }
  split; [|done].
  unfold recipients_of, dict_get. rewrite Hto. cbn [default].
  by repeat apply entered_in_order_app.
Qed.

(** C3.  In a successful attempt to send a message whose [to], [cc] and
    [bcc] are lists, the addresses are entered in this order: those of [to]
    in sequence, then those of [cc], then those of [bcc]; for each address
    the field is looked up anew, filled, and committed with Enter before
    the next address is dealt with.  Nothing is entered before the first
    address and Enter is not pressed after the last. *)
Theorem recipients_filled_in_order (w : world) (email_data : pydict)
    (tos ccs bccs : list string) s r s' :
  email_data !! "to" = Some (PList tos) →
  dict_get email_data "cc" = PList ccs →
  dict_get email_data "bcc" = PList bccs →
  send_email_attempt w email_data s = (Val r, s') →
  ∃ before addressed after,
    s' = s ++ before ++ addressed ++ after ∧
    count_calls is_entry before = 0%nat ∧
    entered_in_order
      ((pair ToField ∘ PStr <$> tos) ++
       (pair CcField ∘ PStr <$> ccs) ++
       (pair BccField ∘ PStr <$> bccs)) addressed ∧
    count_calls is_press after = 0%nat.
Proof.
  intros Hto Hcc Hbcc H.
  destruct (send_email_attempt_recipients w email_data s r s' H)
    as (before & addressed & after & Hs & Hb & Ha & Hp).
  exists before, addressed, after. repeat split; try done.
  unfold recipients_of in Ha. unfold dict_get at 1 in Ha.
  rewrite Hto, Hcc, Hbcc in Ha. cbn [default as_list] in Ha.
  unfold optional_addresses in Ha.
  rewrite !list_fmap_compose.
  destruct ccs, bccs; exact Ha.
Qed.

(** ** Snapshots and send clicks over a whole run *)

Section WholeRun.
Variable w : world.
Variable p : call → bool.
Variable n : nat.
Hypothesis attempt_spends : ∀ email_data, spends p n (send_email_attempt w email_data).
Hypothesis no_sleep : ∀ k, p (Sleep k) = false.
Hypothesis no_makedirs : ∀ path, p (MakeDirs path) = false.
Hypothesis no_screenshot : ∀ path, p (Screenshot path) = false.

Lemma save_screenshot_quiet label : spends p 0 (save_screenshot w label).
Proof.
  unfold save_screenshot. pose proof (spends_now p w).
  footprint_by ltac:(first [apply no_makedirs|apply no_screenshot]).
Qed.

(** What one attempt spends, each attempt left to run spends at most. *)
Lemma send_email_attempts_footprint email_data max_retries attempts :
  spends p (length attempts * n)
    (send_email_attempts w email_data max_retries attempts).
Proof.
  induction attempts as [|attempt rest IH]; cbn [send_email_attempts length].
  { apply spends_ret. }
  replace (S (length rest) * n)%nat with (n + length rest * n)%nat by lia.
  apply spends_try; [done|intros e].
  destruct (_ =? _).
  - apply (spends_weaken _ 0); [lia|].
    pose proof save_screenshot_quiet. footprint_by fail.
  - replace (length rest * n)%nat with (0 + length rest * n)%nat by lia.
    apply spends_bind; [|done].
    by apply asyncio_sleep_spends.
Qed.

Lemma send_email_footprint email_data : spends p (3 * n) (send_email w email_data).
Proof.
  unfold send_email.
  do 2 (apply (spends_bind _ 0); [apply spends_subscript|intros ?]).
  apply (send_email_attempts_footprint _ 3 (seq 0 3)).
Qed.

End WholeRun.

(** ** Clicks on Send *)

Lemma spends_bind_post {A B} p n k (m : M A) (f : A → M B) (Q : A → Prop) :
  spends p n m → (∀ s a s', m s = (Val a, s') → Q a) →
  (∀ a, Q a → spends p k (f a)) → spends p (n + k) (bind m f).
Proof.
  intros Hm HQ Hf s. destruct (Hm s) as (t & Ht & Hc). unfold bind.
  destruct (m s) as [[a|e] s1] eqn:E; cbn in Ht; subst s1.
  - destruct (Hf a (HQ _ _ _ E) (s ++ t)) as (t' & Ht' & Hc'). exists (t ++ t').
    rewrite Ht', count_calls_app, app_assoc. split; [done|lia].
  - exists t. cbn. split; [done|lia].
Qed.

Section SendClicks.
Variable w : world.

(** What a look-up over [sels] returns is found by one of [sels], or is the
    text box of the fallback. *)
Lemma wait_for_element_returns selector timeout description s field s' :
  wait_for_element w selector timeout description s = (Val field, s') →
  returned_for (selectors_of selector) field.
Proof.
  intros H. apply wait_for_element_found in H as (lookup & _ & Hall & Hlast).
  destruct field as [sel|]; [|done]. cbn.
  apply last_Some in Hlast as (l' & ->).
  apply Forall_app in Hall as [_ Hsel]. apply Forall_cons in Hsel as [Hsel _].
  cbn in Hsel. apply andb_prop in Hsel as [Hsel _].
  by apply bool_decide_eq_true in Hsel.
Qed.

Lemma click_not_send sels field :
  Forall (λ sel, sel ∉ send_selectors) sels →
  returned_for sels field → send_click (Click field) = false.
Proof.
  intros Hsels Hfield. destruct field as [sel|]; [|done]. cbn in *.
  apply bool_decide_eq_false. rewrite Forall_forall in Hsels. by apply Hsels.
Qed.

Lemma not_send_selectors sels :
  forallb (λ sel, negb (existsb (String.eqb sel) send_selectors)) sels = true →
  Forall (λ sel, sel ∉ send_selectors) sels.
Proof.
  intros H. apply Forall_forall. intros sel Hsel Hsend.
  rewrite forallb_forall in H. apply list_elem_of_In in Hsel.
  specialize (H _ Hsel). apply negb_true_iff in H.
  assert (existsb (String.eqb sel) send_selectors = true); [|congruence].
  apply existsb_exists. exists sel. split; [by apply list_elem_of_In|].
  apply String.eqb_refl.
Qed.

(** Looking a field up and clicking it is no click on Send, when none of
    its selectors is one of Send's. *)
Lemma lookup_and_click_not_send {B} sels timeout description (k : element → M B) n :
  forallb (λ sel, negb (existsb (String.eqb sel) send_selectors)) (selectors_of sels) = true →
  (∀ field, spends send_click n (k field)) →
  spends send_click n
    (let! field := wait_for_element w sels timeout description in
     perform w (Click field) >> k field).
Proof.
  intros Hsels Hk.
  apply (spends_bind_post _ 0 n _ _ (returned_for (selectors_of sels))).
  - by apply wait_for_element_quiet.
  - intros s field s'. apply wait_for_element_returns.
  - intros field Hfield. apply (spends_bind _ 0 n); [|done].
    apply spends_perform_0.
    by apply (click_not_send (selectors_of sels)); [apply not_send_selectors|].
Qed.

Lemma lookup_some_then sels description value s :
  (let! field :=
     (let! f := wait_for_element w (Strs sels) 5000 description in ret (Some f)) in
   match field with
   | None => raise (UnboundLocalError "field")
   | Some field =>
       perform w (Click field) >> perform w (Clear field) >>
       perform w (Fill field (PStr (py_str w value))) >> ret true
   end) s
  = (let! field := wait_for_element w (Strs sels) 5000 description in
     perform w (Click field) >> perform w (Clear field) >>
     perform w (Fill field (PStr (py_str w value))) >> ret true) s.
Proof.
  unfold bind at 1 2 6. unfold ret at 1.
  by destruct (wait_for_element w (Strs sels) 5000 description s) as [[?|?] ?].
Qed.

Lemma fill_field_attempt_no_send field_type value :
  spends send_click 0 (fill_field_attempt w field_type value).
Proof.
  assert (Hrest : ∀ field,
    spends send_click 0
      (perform w (Clear field) >>
       perform w (Fill field (PStr (py_str w value))) >> ret true)).
  { intros field. footprint_by ltac:(reflexivity). }
  unfold fill_field_attempt.
  destruct (String.eqb field_type "to");
    [|destruct (String.eqb field_type "subject");
      [|destruct (String.eqb field_type "body")]].
  4:{ footprint_by fail. }
  all: eapply spends_ext; [apply lookup_some_then|];
    apply lookup_and_click_not_send; [vm_compute; reflexivity|exact Hrest].
Qed.

Lemma fill_field_with_retry_no_send field_type value max_retries :
  spends send_click 0 (fill_field_with_retry w field_type value max_retries).
Proof.
  unfold fill_field_with_retry. generalize (seq 0 (Z.to_nat max_retries)).
  intros attempts.
  pose proof fill_field_attempt_no_send.
  pose proof (λ n, asyncio_sleep_spends w send_click n eq_refl).
  induction attempts as [|attempt rest IH]; cbn [fill_field_attempts];
    footprint_by fail.
Qed.

Lemma fill_addresses_no_send sels description emails :
  forallb (λ sel, negb (existsb (String.eqb sel) send_selectors)) sels = true →
  spends send_click 0 (fill_addresses w sels description emails).
Proof.
  intros Hsels. induction emails as [|email rest IH]; cbn [fill_addresses].
  { apply spends_ret. }
  apply (lookup_and_click_not_send (Strs sels)); [done|intros field].
  footprint_by ltac:(reflexivity).
Qed.

(** One attempt clicks at most once on Send. *)
Lemma send_email_attempt_one_send email_data :
  spends send_click 1 (send_email_attempt w email_data).
Proof.
  pose proof (wait_for_element_quiet w send_click (λ _ _, eq_refl) (λ _, eq_refl)).
  pose proof (λ n, asyncio_sleep_spends w send_click n eq_refl).
  pose proof fill_field_with_retry_no_send.
  pose proof (λ d e, fill_addresses_no_send to_selectors d e eq_refl).
  pose proof (λ d e, fill_addresses_no_send cc_selectors d e eq_refl).
  pose proof (λ d e, fill_addresses_no_send bcc_selectors d e eq_refl).
  unfold send_email_attempt.
  apply (lookup_and_click_not_send (Str "div[gh='cm']")); [done|intros compose_btn].
  do 8 (apply (spends_bind _ 0); [solve [footprint_by fail]|intros ?]).
  apply (lookup_and_click_not_send (Strs body_selectors));
    [vm_compute; reflexivity|intros body_field].
  do 3 (apply (spends_bind _ 0); [solve [footprint_by ltac:(reflexivity)]|intros ?]).
  apply (spends_bind _ 1 0); [|intros ?; footprint_by ltac:(reflexivity)].
  eapply spends_weaken; [|apply spends_perform]. destruct (send_click _); lia.
Qed.

End SendClicks.

(** An attempt starts with the look-up of the compose button. *)
Lemma send_email_attempt_starts (w : world) email_data s :
  ∃ t, (send_email_attempt w email_data s).2
       = s ++ WaitVisible "div[gh='cm']" 10000 :: t.
Proof.
  destruct (wait_for_element_calls w (Str "div[gh='cm']") 10000 "compose button" s)
    as (k & counts & Hrun & Hk & Hk1 & _).
  cbn [selectors_of length] in *.
  assert (k = 1%nat) as -> by (specialize (Hk1 ltac:(done)); lia).
  change (waits _ (take 1 ["div[gh='cm']"])) with [WaitVisible "div[gh='cm']" 10000] in Hrun.
  unfold send_email_attempt, bind at 1.
  destruct (wait_for_element w (Str "div[gh='cm']") 10000 "compose button" s)
    as [[compose_btn|e] s1]; cbn [snd] in Hrun; subst s1; [|by eexists].
  match goal with |- ∃ t, (?K ?s1).2 = _ => assert (HK : spends (λ _, false) 0 K) end.
  { pose proof (wait_for_element_quiet w (λ _, false) (λ _ _, eq_refl) (λ _, eq_refl)).
    pose proof (fill_addresses_quiet w (λ _, false) (λ _ _, eq_refl)).
    pose proof (fill_field_with_retry_quiet w (λ _, false) (λ _ _, eq_refl) (λ _, eq_refl)
                    (λ _, eq_refl) (λ _, eq_refl) (λ _ _, eq_refl) (λ _, eq_refl)).
    pose proof (λ n, asyncio_sleep_spends w (λ _, false) n eq_refl).
    footprint_by ltac:(reflexivity). }
  destruct (HK (s ++ [WaitVisible "div[gh='cm']" 10000] ++ counts)) as (t & -> & _).
  exists (counts ++ t). by rewrite <- !app_assoc.
Qed.

(** ** Where [asyncio] is not bound *)

Section Unbound.
Variable w : world.
Hypothesis unbound : asyncio_bound w = false.

(** An attempt to send gets no further than the pause after the compose
    dialog has shown: it issues pipeline calls only. *)
Lemma send_email_attempt_unbound p email_data :
  (∀ c, pipeline_call c = true → p c = false) →
  spends p 0 (send_email_attempt w email_data).
Proof.
  intros quiet.
  pose proof (wait_for_element_quiet w p
                (λ sel b, quiet (WaitVisible sel b) eq_refl)
                (λ x, quiet (Count x) eq_refl)) as Hlookup.
  unfold send_email_attempt, asyncio_sleep. rewrite unbound.
  apply (spends_bind _ 0 0); [apply Hlookup|intros compose_btn].
  apply (spends_bind _ 0 0); [by apply spends_perform_0, quiet|intros _].
  apply (spends_bind _ 0 0); [apply Hlookup|intros _].
  intros s. exists []. cbn. rewrite app_nil_r. split; [done|lia].
Qed.

(** And it raises. *)
Lemma send_email_attempt_unbound_raises email_data s :
  ∃ e, (send_email_attempt w email_data s).1 = Exc e.
Proof.
  unfold send_email_attempt, asyncio_sleep. rewrite unbound. unfold bind.
  destruct (wait_for_element w (Str "div[gh='cm']") 10000 "compose button" s)
    as [[compose_btn|e] s1]; [|by eexists].
  destruct (perform w (Click compose_btn) s1) as [[?|e] s2]; [|by eexists].
  destruct (wait_for_element w (Str "div[role='dialog']") 10000 "compose dialog" s2)
    as [[?|e] s3]; by eexists.
Qed.

(** So [send_email] makes one attempt and raises the [NameError] of its
    handler. *)
Lemma send_email_unbound (email_data : pydict) s :
  is_Some (email_data !! "to") → is_Some (email_data !! "subject") →
  send_email w email_data s
  = (Exc (NameError "asyncio"), (send_email_attempt w email_data s).2).
Proof.
  intros [to Hto] [subject Hsubject].
  unfold send_email, subscript. rewrite Hto, Hsubject. unfold bind at 1 2. cbn [ret].
  cbn [seq].
  destruct (send_email_attempt_unbound_raises email_data s) as (e & He).
  destruct (send_email_attempt w email_data s) as [r s1] eqn:E. cbn [fst snd] in *.
  subst r. by apply (send_email_attempts_stop w _ _ _ _ _ e).
Qed.

End Unbound.

Lemma count_calls_last p t c :
  last t = Some c → p c = true → (1 ≤ count_calls p t)%nat.
Proof.
  intros Hlast Hp. apply last_Some in Hlast as (t' & ->).
  rewrite count_calls_app. cbn. rewrite Hp. lia.
Qed.

(** An attempt that has come to the wait for the confirmation has slept:
    the name [asyncio] is bound. *)
Lemma send_email_attempt_confirmation_bound (w : world) email_data s r s0 c :
  send_email_attempt w email_data s
  = (r, s0 ++ [c; WaitForSelector "span.bAq" 10000]) →
  asyncio_bound w = true.
Proof.
  intros H. destruct (asyncio_bound w) eqn:Hb; [done|]. exfalso.
  destruct (send_email_attempt_starts w email_data s) as (t & Ht).
  destruct (send_email_attempt_unbound w Hb confirmation_wait email_data
              ltac:(by intros []) s) as (t' & Ht' & Hc).
  rewrite H in Ht, Ht'. cbn [snd] in Ht, Ht'.
  rewrite Ht in Ht'. apply app_inv_head in Ht' as <-.
  apply (f_equal last) in Ht. rewrite !last_app in Ht. cbn [last] in Ht.
  destruct (last (WaitVisible "div[gh='cm']" 10000 :: t)) as [c'|] eqn:Hlast.
  - injection Ht as <-.
    pose proof (count_calls_last confirmation_wait _ _ Hlast eq_refl). lia.
  - by apply last_None in Hlast.
Qed.

(** C6.  In a process that has imported the module without binding the
    name [asyncio], an action that fails on every attempt does not end as
    the specification says: either executor makes one attempt and raises the
    [NameError] of the [asyncio.sleep] of its handler instead of the
    exception of the last attempt, and the send executor takes no
    snapshot. *)
Theorem retry_exhaustion_without_asyncio (w : world) :
  asyncio_bound w = false →
  (∀ field_type value max_retries s e s',
     2 ≤ max_retries →
     fails_every_time (fill_field_attempt w field_type value) 1
       (Z.to_nat max_retries) s = Some (e, s') →
     fill_field_with_retry w field_type value max_retries s
     = (Exc (NameError "asyncio"), (fill_field_attempt w field_type value s).2)) ∧
  (∀ (email_data : pydict) s e s',
     is_Some (email_data !! "to") → is_Some (email_data !! "subject") →
     fails_every_time (send_email_attempt w email_data) 2 3 s = Some (e, s') →
     send_email w email_data s
     = (Exc (NameError "asyncio"), (send_email_attempt w email_data s).2) ∧
     ∃ t, (send_email w email_data s).2 = s ++ t ∧
          count_calls snapshot_start t = 0%nat).
Proof.
  intros Hb. split.
  - intros field_type value max_retries s e s' Hmax H.
    replace (Z.to_nat max_retries) with (S (S (Z.to_nat (max_retries - 2)))) in H by lia.
    cbn [fails_every_time] in H.
    destruct (fill_field_attempt w field_type value s) as [[a|e1] s1] eqn:E; [done|].
    by apply (fill_field_with_retry_unbound w _ _ _ _ e1).
  - intros email_data s e s' Hto Hsubject _.
    rewrite (send_email_unbound w Hb email_data s Hto Hsubject).
    split; [done|]. cbn [snd].
    destruct (send_email_attempt_unbound w Hb snapshot_start email_data
                ltac:(by intros []) s) as (t & Ht & Hc).
    exists t. split; [done|lia].
Qed.

(** C10.  [save_screenshot] always returns: the path of the snapshot when
    both the directory and the capture succeed, [None] when one of them
    raises.  So when the last attempt to send has failed, the exception
    that [send_email] raises after the snapshot is that of the attempt. *)
Theorem save_screenshot_never_raises (w : world) label s :
  let s1 := s ++ [MakeDirs "screens"] in
  let path := snapshot_path w label s in
  (save_screenshot w label s = (Val (Some path), s1 ++ [Screenshot path]) ∧
   raises (page w s (MakeDirs "screens")) = false ∧
   raises (page w s1 (Screenshot path)) = false
   ∨
   (∃ s', save_screenshot w label s = (Val None, s')) ∧
   (raises (page w s (MakeDirs "screens")) = true ∨
    raises (page w s1 (Screenshot path)) = true)) ∧
  (∀ email_data max_retries attempt rest s0 e s2,
     Z.of_nat attempt = Z.of_nat max_retries - 1 →
     send_email_attempt w email_data s0 = (Exc e, s2) →
     (send_email_attempts w email_data max_retries (attempt :: rest) s0).1 = Exc e).
Proof.
  intros s1 path. split.
  - rewrite save_screenshot_cases. fold s1. fold path.
    destruct (page w s (MakeDirs "screens")); cbn.
    + destruct (page w s1 (Screenshot path)); cbn; [by left|].
      right. split; [by eexists|by right].
    + right. split; [by eexists|by left].
  - intros email_data max_retries attempt rest s0 e s2 Hlast H.
    by rewrite (send_email_attempts_last w _ _ _ _ _ e s2).
Qed.

(** C9.  Sending is not atomic.  An attempt that fails before the last one,
    be it after the click on Send while waiting for the confirmation, is
    followed by the back-off and by a new attempt, which starts over at the
    compose button.  There is a run in which Send is clicked three times and
    which ends with an exception.  No run clicks on Send, or waits for the
    confirmation that follows the click, more than three times. *)
Theorem send_is_not_atomic :
  (∀ (w : world) email_data max_retries attempt next rest s e s0 send_btn,
     Z.of_nat attempt ≠ Z.of_nat max_retries - 1 →
     send_email_attempt w email_data s
     = (Exc e, s0 ++ [Click send_btn; WaitForSelector "span.bAq" 10000]) →
     let s1 := s0 ++ [Click send_btn; WaitForSelector "span.bAq" 10000; Sleep 2] in
     send_email_attempts w email_data max_retries (attempt :: next :: rest) s
     = send_email_attempts w email_data max_retries (next :: rest) s1 ∧
     ∃ t, (send_email_attempts w email_data max_retries (next :: rest) s1).2
          = s1 ++ WaitVisible "div[gh='cm']" 10000 :: t) ∧
  (∃ (w : world) email_data e t,
     send_email w email_data [] = (Exc e, t) ∧
     count_calls send_click t = 3%nat) ∧
  (∀ (w : world) email_data s,
     ∃ t, (send_email w email_data s).2 = s ++ t ∧
          (count_calls send_click t ≤ 3)%nat ∧
          (count_calls confirmation_wait t ≤ 3)%nat).
Proof.
  split; [|split].
  - intros w email_data max_retries attempt next rest s e s0 send_btn Hne H s1.
    split.
    + pose proof (send_email_attempt_confirmation_bound w _ _ _ _ _ H) as Hb.
      rewrite (send_email_attempts_retry w _ _ _ _ _ e _ Hb Hne H).
      by rewrite <- app_assoc.
    + cbn [send_email_attempts]. unfold try_except.
      destruct (send_email_attempt_starts w email_data s1) as (t & Ht).
      destruct (send_email_attempt w email_data s1) as [[r|e1] s2];
        cbn [snd] in Ht; subst s2; [by eexists|].
      match goal with |- ∃ t', (?h ?s2).2 = _ => assert (Hh : spends (λ _, false) 0 h) end.
      { destruct (_ =? _).
        - pose proof (save_screenshot_quiet w (λ _, false) (λ _, eq_refl) (λ _, eq_refl)).
          footprint_by fail.
        - apply (spends_bind _ 0 0); [by apply asyncio_sleep_spends|intros _].
          eapply spends_weaken;
            [|apply (send_email_attempts_footprint w (λ _, false) 0); [|done..]].
          * lia.
          * intros. by apply (send_email_attempt_footprint w (λ _, false)). }
      destruct (Hh (s1 ++ WaitVisible "div[gh='cm']" 10000 :: t)) as (t' & -> & _).
      exists (t ++ t'). by rewrite <- app_assoc.
  - exists Fake.world_unconfirmed, Fake.email_data.
    eexists _, _. split; [vm_compute; reflexivity|]. vm_compute. reflexivity.
  - intros w email_data s.
    destruct (send_email_footprint w send_click 1
                (send_email_attempt_one_send w) (λ _, eq_refl) (λ _, eq_refl)
                (λ _, eq_refl) email_data s) as (t & Ht & Hclicks).
    destruct (send_email_footprint w confirmation_wait 1
                (send_email_attempt_footprint w confirmation_wait ltac:(by intros []))
                (λ _, eq_refl) (λ _, eq_refl) (λ _, eq_refl) email_data s)
      as (t' & Ht' & Hwaits).
    rewrite Ht in Ht'. apply app_inv_head in Ht' as <-.
    exists t. cbn in Hclicks, Hwaits. done.
Qed.

(** ** The facade *)

Import UnifiedApi.

Section Facade.
Variable w : world.
Variable g : globals.

Lemma lookup_override key value (instructions : pydict) key' :
  override key value instructions !! key'
  = if decide (key = key') then chosen value (instructions !! key')
    else instructions !! key'.
Proof.
  unfold override, chosen. destruct value as [[|x l]|]; case_decide; subst; try done.
  - by rewrite lookup_insert_eq.
  - by rewrite lookup_insert_ne.
Qed.

Lemma merge_recipients_chosen request instructions :
  recipients_chosen request instructions (merge_recipients request instructions).
Proof.
  unfold recipients_chosen, merge_recipients.
  repeat split; rewrite !lookup_override; repeat case_decide; done.
Qed.

(** The merge leaves the other keys alone. *)
Lemma merge_recipients_other request instructions key :
  key ≠ "to" → key ≠ "cc" → key ≠ "bcc" →
  merge_recipients request instructions !! key = instructions !! key.
Proof.
  intros. unfold merge_recipients.
  rewrite !lookup_override; repeat case_decide; done.
Qed.

(** The run of [gmail_send] up to the check of the recipients, when the
    merged message has none. *)
Lemma gmail_send_no_recipient request agent env instructions email_data s :
  gmail_agent g = Some agent → gmail_env g = Some env →
  parse_task agent (GmailSendRequest.task request) (GmailSendRequest.tone request)
  = Val instructions →
  parse_email_json g (merge_recipients request instructions) = Val email_data →
  truthy (dict_get email_data "to") = false →
  gmail_send w g request s
  = (Exc (HTTPException 500
            "Gmail send failed: No recipient found after parsing/merge."), s).
Proof.
  intros Hagent Henv Htask Hjson Hto. unfold gmail_send.
  rewrite Hagent, Henv. unfold try_except, bind, lift.
  by rewrite Htask, Hjson, Hto.
Qed.

End Facade.

(** C1 (as amended).  When the merged message has no recipient, the facade
    answers with status 500 and the detail of the validation error; the
    handler of [gmail_send] turns every earlier error, validation included,
    into a 500. *)
Theorem gmail_send_no_recipient_500 (w : world) (g : globals) request agent env
    instructions email_data s :
  gmail_agent g = Some agent → gmail_env g = Some env →
  parse_task agent (GmailSendRequest.task request) (GmailSendRequest.tone request)
  = Val instructions →
  parse_email_json g (merge_recipients request instructions) = Val email_data →
  truthy (dict_get email_data "to") = false →
  (gmail_send w g request s).1
  = Exc (HTTPException 500
           "Gmail send failed: No recipient found after parsing/merge.") ∧
  status_of (gmail_send w g request s).1 = Some 500.
Proof.
  intros Hagent Henv Htask Hjson Hto.
  by rewrite (gmail_send_no_recipient w g request agent env instructions email_data s).
Qed.

(** C5.  When the merged message has no recipient, [gmail_send] raises
    without a single call to the browser: the history is as it was,
    whatever the pipeline would have done. *)
Theorem gmail_send_no_recipient_no_browser (w : world) (g : globals) request
    agent env instructions email_data s :
  gmail_agent g = Some agent → gmail_env g = Some env →
  parse_task agent (GmailSendRequest.task request) (GmailSendRequest.tone request)
  = Val instructions →
  parse_email_json g (merge_recipients request instructions) = Val email_data →
  truthy (dict_get email_data "to") = false →
  ∃ e, gmail_send w g request s = (Exc e, s).
Proof.
  intros Hagent Henv Htask Hjson Hto. eexists.
  by apply gmail_send_no_recipient with (agent := agent) (env := env)
    (instructions := instructions) (email_data := email_data).
Qed.

(** C2.  With an empty question both [search_documents] raise the 400 inside
    their own [try]; the [except Exception] around it answers 500. *)
Theorem search_documents_empty_question_500 (g : UnifiedApi.globals)
    (g' : PdfRetrieverApp.globals) max_results s :
  UnifiedApi.search_documents g (PDFSearchRequest.Build "" max_results) s
  = (Exc (HTTPException 500 "Search error: 400: Question is required"), s) ∧
  PdfRetrieverApp.search_documents g' (PdfRetrieverApp.SearchQuery.Build "") s
  = (Exc (HTTPException 500 "Search error: 400: Question is required"), s).
Proof. split; reflexivity. Qed.

(** C4.  The message that [gmail_send] hands to the validator has, for each of
    [to], [cc] and [bcc], the list of the request when that is present and
    non-empty and what the translator gave otherwise; so a translated [to]
    of [a@x] with a requested [to] of [b@x] gives [b@x].  The message sent
    and previewed is what the validator returns for it, with these
    recipients when the validator hands them on. *)
Theorem merge_precedence (w : world) (g : globals) request :
  (∀ instructions,
     recipients_chosen request instructions (merge_recipients request instructions)) ∧
  (∀ instructions,
     GmailSendRequest.to request = Some ["b@x"] →
     instructions !! "to" = Some (PList ["a@x"]) →
     merge_recipients request instructions !! "to" = Some (PList ["b@x"])) ∧
  (∀ agent s resp s',
     gmail_agent g = Some agent →
     gmail_send w g request s = (Val resp, s') →
     ∃ instructions,
       parse_task agent (GmailSendRequest.task request) (GmailSendRequest.tone request)
       = Val instructions ∧
       parse_email_json g (merge_recipients request instructions)
       = Val (email_preview resp) ∧
       (keeps_recipients (parse_email_json g) →
        recipients_chosen request instructions (email_preview resp))).
Proof.
  split; [|split].
  - intros instructions. apply merge_recipients_chosen.
  - intros instructions Hreq Hins.
    destruct (merge_recipients_chosen request instructions) as (-> & _).
    by rewrite Hreq.
  - intros agent s resp s' Hagent H. unfold gmail_send in H. rewrite Hagent in H.
    destruct (gmail_env g) as [env|]; [|done].
    unfold try_except, bind at 1 2, lift in H.
    destruct (parse_task agent _ _) as [instructions|e]; [|by destruct e].
    exists instructions. split; [done|].
    destruct (parse_email_json g (merge_recipients request instructions))
      as [email_data|e] eqn:Hjson; [|by destruct e].
    unfold bind at 1 in H.
    destruct (negb (truthy (dict_get email_data "to"))); [done|].
    cbn [ret] in H. unfold bind, try_except, raise, ret in H.
    destruct (_send_email_async w g email_data env s) as [[[]|e] s1]; [|done].
    inversion H; subst resp s'. cbn [email_preview].
    split; [done|]. intros Hkeep.
    destruct (Hkeep _ _ Hjson) as (Hto & Hcc & Hbcc).
    destruct (merge_recipients_chosen request instructions) as (Mto & Mcc & Mbcc).
    unfold recipients_chosen. by rewrite Hto, Hcc, Hbcc.
Qed.

(** * The properties at work on the fake pages *)

(** C1 as the specification has it does not hold: with no recipient from
    the caller and none from the translator, the answer is not a client
    error. *)
Lemma gmail_send_no_recipient_not_client_error :
  let w := Fake.world_ok in
  let g := Fake.globals w Fake.agent_no_recipient in
  truthy (dict_get (merge_recipients Fake.request_no_recipient
                      Fake.instructions_no_recipient) "to") = false ∧
  status_of (gmail_send w g Fake.request_no_recipient []).1 = Some 500 ∧
  ¬ client_error (gmail_send w g Fake.request_no_recipient []).1.
Proof.
  cbn zeta. split; [vm_compute; reflexivity|]. split; [vm_compute; reflexivity|].
  intros (status & Hstatus & Hrange). vm_compute in Hstatus.
  injection Hstatus as <-. lia.
Qed.

(** The answer of the facade to the request without recipient is a 500. *)
Lemma gmail_send_no_recipient_500_witness :
  let w := Fake.world_ok in
  let g := Fake.globals w Fake.agent_no_recipient in
  status_of (gmail_send w g Fake.request_no_recipient []).1 = Some 500.
Proof.
  cbn zeta.
  apply (gmail_send_no_recipient_500 Fake.world_ok
           (Fake.globals Fake.world_ok Fake.agent_no_recipient)
           Fake.request_no_recipient Fake.agent_no_recipient ∅
           Fake.instructions_no_recipient Fake.instructions_no_recipient []);
    vm_compute; reflexivity.
Defined.

(** The same request leaves the empty history empty. *)
Lemma gmail_send_no_recipient_no_browser_witness :
  let w := Fake.world_ok in
  let g := Fake.globals w Fake.agent_no_recipient in
  ∃ e, gmail_send w g Fake.request_no_recipient [] = (Exc e, []).
Proof.
  cbn zeta.
  apply (gmail_send_no_recipient_no_browser Fake.world_ok
           (Fake.globals Fake.world_ok Fake.agent_no_recipient)
           Fake.request_no_recipient Fake.agent_no_recipient ∅
           Fake.instructions_no_recipient Fake.instructions_no_recipient []);
    vm_compute; reflexivity.
Defined.

(** The requested [b@x] wins over the translated [a@x]. *)
Lemma merge_precedence_witness :
  merge_recipients Fake.request_b Fake.instructions_a !! "to" = Some (PList ["b@x"]).
Proof.
  apply (proj1 (proj2 (merge_precedence Fake.world_ok
                         (Fake.globals Fake.world_ok Fake.agent_a) Fake.request_b)));
    vm_compute; reflexivity.
Defined.

(** The To field is found by its second candidate when the first never
    shows. *)
Lemma wait_for_element_contract_witness :
  selectors_of (Strs to_selectors) ≠ [] ∧
  wait_for_element Fake.world_second_candidate (Strs to_selectors) 5000 "To field" []
  = (Val (LocatorFirst "input[name='to']"),
     [WaitVisible "input[aria-label='To']" 1666; WaitVisible "input[name='to']" 1666]).
Proof.
  assert (H : selectors_of (Strs to_selectors) ≠ []) by discriminate.
  split; [exact H|].
  apply (proj1 (proj2 (wait_for_element_contract Fake.world_second_candidate
                         (Strs to_selectors) 5000 "To field" [] H))
           ["input[aria-label='To']"] "input[name='to']" ["div[aria-label='To'] input"]);
    vm_compute; reflexivity.
Defined.

(** Two failed fills and then a good one, in a process without [asyncio]:
    one attempt, and the [NameError]. *)
Lemma fill_field_with_retry_stops_without_asyncio_witness :
  ∃ t, fill_field_with_retry Fake.world_fill_fails_twice_imported "subject" (PStr "hi") 3 []
       = (Exc (NameError "asyncio"), [] ++ t) ∧
       count_calls (attempt_start "subject") t = 1%nat.
Proof.
  apply (fill_field_with_retry_stops_without_asyncio
           Fake.world_fill_fails_twice_imported "subject" (PStr "hi") 3 2 [] true
           (fill_field_with_retry Fake.world_fill_fails_twice "subject" (PStr "hi") 3 []).2);
    [reflexivity|lia|lia|vm_compute; reflexivity].
Defined.

(** On a blank page, in a process without [asyncio]: the time-outs of the
    look-ups are not what is raised, and no snapshot is taken. *)
Lemma retry_exhaustion_without_asyncio_witness :
  fill_field_with_retry Fake.world_blank_imported "subject" (PStr "hi") 3 []
  = (Exc (NameError "asyncio"),
     [WaitVisible "input[name='subjectbox']" 2500;
      WaitVisible "input[aria-label='Subject']" 2500; Count Dialog]) ∧
  (send_email Fake.world_blank_imported Fake.email_data []).1
  = Exc (NameError "asyncio") ∧
  ∃ t, (send_email Fake.world_blank_imported Fake.email_data []).2 = [] ++ t ∧
       count_calls snapshot_start t = 0%nat.
Proof.
  destruct (retry_exhaustion_without_asyncio Fake.world_blank_imported eq_refl)
    as [Hfill Hsend].
  split.
  - rewrite (Hfill "subject" (PStr "hi") 3 []
               (TimeoutError "Could not find Subject field")
               (fill_field_with_retry Fake.world_blank "subject" (PStr "hi") 3 []).2);
      [reflexivity|lia|vm_compute; reflexivity].
  - destruct (Hsend Fake.email_data []
                (TimeoutError "Could not find compose button")
                (removelast (removelast
                   (send_email Fake.world_blank Fake.email_data []).2)))
      as (Hrun & t & Ht & Hc).
    + vm_compute. eauto.
    + vm_compute. eauto.
    + vm_compute. reflexivity.
    + rewrite Hrun. split; [reflexivity|]. rewrite Hrun in Ht. by exists t.
Defined.

(** Two addresses in [to], one in [cc], one in [bcc]. *)
Lemma recipients_filled_in_order_witness :
  let w := Fake.world_ok in
  ∃ before addressed after,
    (send_email_attempt w Fake.email_data_all []).2 = [] ++ before ++ addressed ++ after ∧
    count_calls is_entry before = 0%nat ∧
    entered_in_order
      [(ToField, PStr "a@x"); (ToField, PStr "b@x"); (CcField, PStr "c@x");
       (BccField, PStr "d@x")] addressed ∧
    count_calls is_press after = 0%nat.
Proof.
  cbn zeta.
  apply (recipients_filled_in_order Fake.world_ok Fake.email_data_all
           ["a@x"; "b@x"] ["c@x"] ["d@x"] [] (Some true));
    vm_compute; reflexivity.
Defined.

(** The last attempt times out on the confirmation, and that is what is
    raised. *)
Lemma save_screenshot_never_raises_witness :
  (send_email_attempts Fake.world_unconfirmed Fake.email_data 3 [2%nat] []).1
  = Exc (TimeoutError "Timeout 10000ms exceeded.").
Proof.
  apply (proj2 (save_screenshot_never_raises Fake.world_unconfirmed "" [])
           Fake.email_data 3%nat 2%nat [] [] (TimeoutError "Timeout 10000ms exceeded.")
           (send_email_attempt Fake.world_unconfirmed Fake.email_data []).2);
    vm_compute; reflexivity.
Defined.

(** Without confirmation the first attempt fails after its click on Send,
    and the second starts at the compose button. *)
Lemma send_is_not_atomic_witness :
  let w := Fake.world_unconfirmed in
  let s0 := removelast (removelast (send_email_attempt w Fake.email_data []).2) in
  let send_btn := LocatorFirst (hd "" send_selectors) in
  let s1 := s0 ++ [Click send_btn; WaitForSelector "span.bAq" 10000; Sleep 2] in
  send_email_attempts w Fake.email_data 3 [0; 1; 2]%nat []
  = send_email_attempts w Fake.email_data 3 [1; 2]%nat s1 ∧
  ∃ t, (send_email_attempts w Fake.email_data 3 [1; 2]%nat s1).2
       = s1 ++ WaitVisible "div[gh='cm']" 10000 :: t.
Proof.
  cbn zeta.
  apply (proj1 send_is_not_atomic Fake.world_unconfirmed Fake.email_data 3%nat 0%nat
           1%nat [2%nat] [] (TimeoutError "Timeout 10000ms exceeded."));
    [lia|vm_compute; reflexivity].
Defined.

(** * Further properties *)

(** ** The field locator *)

Lemma waited_app t1 t2 : waited (t1 ++ t2) = waited t1 + waited t2.
Proof.
  induction t1 as [|c t1 IH]; cbn; [done|]. destruct c; rewrite ?IH; lia.
Qed.

Lemma waited_waits b sels : waited (waits b sels) = Z.of_nat (length sels) * b.
Proof. induction sels as [|sel sels IH]; cbn [waits fmap list_fmap waited length]; [lia|].
  fold (waits b sels). rewrite IH. lia.
Qed.

Lemma waited_counts counts :
  Forall (λ c, is_count c = true) counts → waited counts = 0.
Proof. induction 1 as [|c t Hc _ IH]; cbn; [done|]. by destruct c. Qed.

Lemma wait_for_element_waited (w : world) selector timeout description s :
  0 ≤ timeout →
  ∃ t, (wait_for_element w selector timeout description s).2 = s ++ t ∧
       0 ≤ waited t ≤ timeout.
Proof.
  intros Htimeout.
  destruct (wait_for_element_calls w selector timeout description s)
    as (k & counts & Hrun & Hk & _ & Hc & _).
  set (sels := selectors_of selector) in *.
  set (b := timeout `div` Z.of_nat (length sels)) in *.
  exists (waits b (take k sels) ++ counts). split; [done|].
  rewrite waited_app, waited_waits, (waited_counts _ Hc), length_take.
  destruct (decide (length sels = 0%nat)) as [Hlen|Hlen].
  { replace (k `min` length sels)%nat with 0%nat by lia. lia. }
  assert (0 ≤ b) by (apply Z.div_pos; lia).
  assert (Z.of_nat (length sels) * b ≤ timeout) by (apply Z.mul_div_le; lia).
  nia.
Qed.

Lemma count_waits b sels :
  count_calls is_wait (waits b sels) = length sels ∧
  count_calls unlimited_wait (waits b sels) = if b =? 0 then length sels else 0%nat.
Proof.
  induction sels as [|sel sels [IH1 IH2]]; cbn [waits fmap list_fmap count_calls length].
  { by destruct (b =? 0). }
  fold (waits b sels). rewrite IH1, IH2. cbn. by destruct (b =? 0).
Qed.

(** X1.  The waits of a look-up on its candidates each get the timeout
    divided by the number of candidates.  When the timeout is at least
    that number, every wait has a time limit and the limits add up to the
    timeout at most.  When the timeout is smaller, every wait is issued
    with a timeout of 0, and at least one is. *)
Theorem wait_for_element_within_timeout (w : world) selector timeout description s :
  ∃ t, (wait_for_element w selector timeout description s).2 = s ++ t ∧
       (Z.of_nat (length (selectors_of selector)) ≤ timeout →
        count_calls unlimited_wait t = 0%nat ∧ 0 ≤ waited t ≤ timeout) ∧
       (0 ≤ timeout < Z.of_nat (length (selectors_of selector)) →
        count_calls unlimited_wait t = count_calls is_wait t ∧
        (1 ≤ count_calls is_wait t)%nat).
Proof.
  destruct (wait_for_element_calls w selector timeout description s)
    as (k & counts & Hrun & Hk & Hk1 & Hc & _).
  set (sels := selectors_of selector) in *.
  set (b := timeout `div` Z.of_nat (length sels)) in *.
  exists (waits b (take k sels) ++ counts). split; [done|].
  destruct (count_waits b (take k sels)) as [Hwaits Hunlimited].
  rewrite !count_calls_app, Hwaits, Hunlimited.
  rewrite !(count_calls_counts _ counts) by done.
  rewrite length_take. split.
  - intros Hlen. split.
    + destruct (decide (length sels = 0%nat)) as [Hnil|Hnil].
      { destruct (b =? 0); lia. }
      assert (0 < b) by (apply Z.div_str_pos; lia).
      destruct (Z.eqb_spec b 0); lia.
    + destruct (wait_for_element_waited w selector timeout description s ltac:(lia))
        as (t & Ht & Hw).
      rewrite Hrun in Ht. apply app_inv_head in Ht as <-. done.
  - intros [H0 Hlt].
    assert (b = 0) as -> by (apply Z.div_small; lia).
    assert (sels ≠ []) by (intros E; rewrite E in Hlt; cbn in Hlt; lia).
    specialize (Hk1 ltac:(done)). cbn. split; lia.
Qed.

(** X2.  When no candidate shows but a dialog with a text box is open, the
    look-up returns the first text box of the dialog, whatever it was
    looking for; an empty candidate list goes straight to this fallback. *)
Theorem wait_for_element_fallback (w : world) selector timeout description s :
  let sels := selectors_of selector in
  let b := timeout `div` Z.of_nat (length sels) in
  all_fail w b s sels = true →
  fallback_finds w (s ++ waits b sels) = true →
  wait_for_element w selector timeout description s
  = (Val DialogTextboxFirst,
     s ++ waits b sels ++ [Count Dialog; Count DialogTextboxes]).
Proof.
  intros sels b Hfail Hfind.
  rewrite (wait_for_element_all_fail w selector timeout description s Hfail).
  fold sels. fold b. unfold fallback_finds in Hfind.
  destruct (page w (s ++ waits b sels) (Count Dialog)) as [n|e]; [|done].
  destruct (0 <? n); [|done]. cbn in Hfind.
  destruct (page w _ (Count DialogTextboxes)) as [m|e]; [|done].
  rewrite Hfind. by rewrite <- app_assoc.
Qed.

(** ** The field-fill executor *)

Lemma waited_no_wait t : count_calls is_wait t = 0%nat → waited t = 0.
Proof.
  induction t as [|c t IH]; cbn; [done|]. destruct c; cbn; try done; lia.
Qed.

Section FillBounds.
Variable w : world.

(** One attempt: at most five seconds of waiting, no back-off. *)
Lemma fill_field_attempt_waited field_type value s :
  ∃ t, (fill_field_attempt w field_type value s).2 = s ++ t ∧
       0 ≤ waited t ≤ 5000 ∧ count_calls is_sleep t = 0%nat.
Proof.
  destruct (known_field_dec field_type) as [Hk|Hk].
  2:{ rewrite (fill_field_attempt_unknown w _ _ _ Hk). exists [].
      rewrite app_nil_r. cbn. repeat split; lia. }
  assert (∃ sels description, ∀ s0,
    fill_field_attempt w field_type value s0
    = (let! field := wait_for_element w (Strs sels) 5000 description in
       perform w (Click field) >> perform w (Clear field) >>
       perform w (Fill field (PStr (py_str w value))) >> ret true) s0)
    as (sels & description & E).
  { unfold fill_field_attempt.
    destruct Hk as [-> | [-> | ->]]; cbn [String.eqb Ascii.eqb Bool.eqb];
      eexists _, _; intros s0; apply lookup_some_then. }
  rewrite E. unfold bind at 1.
  destruct (wait_for_element_waited w (Strs sels) 5000 description s ltac:(lia))
    as (t & Ht & Hw).
  destruct (wait_for_element_quiet w is_sleep (λ _ _, eq_refl) (λ _, eq_refl)
              (Strs sels) 5000 description s) as (t0 & Ht0 & Hs).
  rewrite Ht in Ht0. apply app_inv_head in Ht0 as <-.
  destruct (wait_for_element w (Strs sels) 5000 description s) as [[field|e] s1];
    cbn [snd] in Ht; subst s1.
  2:{ exists t. cbn. repeat split; lia. }
  assert (Hrest : spends (λ c, is_wait c || is_sleep c) 0
            (perform w (Click field) >> perform w (Clear field) >>
             perform w (Fill field (PStr (py_str w value))) >> ret true)).
  { footprint_by ltac:(reflexivity). }
  destruct (Hrest (s ++ t)) as (t' & -> & Ht').
  assert (count_calls is_wait t' = 0%nat ∧ count_calls is_sleep t' = 0%nat) as [Hw' Hs'].
  { clear - Ht'. induction t' as [|c t' IH]; cbn in *; [done|].
    destruct c; cbn in *; try lia; by apply IH. }
  exists (t ++ t'). rewrite app_assoc, waited_app, count_calls_app.
  rewrite (waited_no_wait _ Hw'). repeat split; lia.
Qed.

(** The loop over the attempts that are left. *)
Lemma fill_field_attempts_bounds field_type value (max_retries : nat) n :
  ∀ i s, (i + n = max_retries)%nat →
    ∃ t, (fill_field_attempts w field_type value (Z.of_nat max_retries) (seq i n) s).2
         = s ++ t ∧
         0 ≤ waited t ≤ Z.of_nat n * 5000 ∧
         (count_calls is_sleep t ≤ n - 1)%nat.
Proof.
  induction n as [|n IH]; intros i s Hi; cbn [seq fill_field_attempts].
  { exists []. rewrite app_nil_r. cbn. repeat split; lia. }
  unfold try_except.
  destruct (fill_field_attempt_waited field_type value s) as (t & Ht & Hw & Hs).
  destruct (fill_field_attempt w field_type value s) as [[b|e] s1];
    cbn [snd] in Ht; subst s1.
  { exists t. cbn [snd]. repeat split; lia. }
  destruct (Z.eqb_spec (Z.of_nat i) (Z.of_nat max_retries - 1)) as [Hlast|Hlast].
  { exists t. cbn. repeat split; lia. }
  unfold bind, asyncio_sleep. destruct (asyncio_bound w).
  2:{ exists t. cbn. repeat split; lia. }
  destruct (IH (S i) ((s ++ t) ++ [Sleep 1]) ltac:(lia)) as (t' & Ht' & Hw' & Hs').
  exists (t ++ [Sleep 1] ++ t'). split.
  { rewrite Ht'. by rewrite <- !app_assoc. }
  rewrite !waited_app, !count_calls_app. cbn. repeat split; lia.
Qed.

(** With an attempt to make, the loop returns [True] or raises. *)
Lemma fill_field_attempts_not_false field_type value (max_retries : nat) n :
  ∀ i s, (i + S n = max_retries)%nat →
    (fill_field_attempts w field_type value (Z.of_nat max_retries) (seq i (S n)) s).1
    ≠ Val false.
Proof.
  induction n as [|n IH]; intros i s Hi; rewrite <- cons_seq;
    cbn [fill_field_attempts]; unfold try_except;
    destruct (fill_field_attempt w field_type value s) as [[b|e] s1] eqn:E.
  - apply fill_field_attempt_true in E as ->. done.
  - destruct (Z.eqb_spec (Z.of_nat i) (Z.of_nat max_retries - 1)); [done|lia].
  - apply fill_field_attempt_true in E as ->. done.
  - destruct (Z.eqb_spec (Z.of_nat i) (Z.of_nat max_retries - 1)); [done|].
    unfold bind. destruct (asyncio_bound w) eqn:Hb.
    + rewrite asyncio_sleep_bound by done. apply (IH (S i)). lia.
    + by rewrite asyncio_sleep_unbound.
Qed.

(** On an unknown field every attempt raises at once.  Where [asyncio] is
    bound only the back-offs are left in the history; where it is not, the
    first back-off raises. *)
Lemma fill_field_attempts_unknown field_type value (max_retries : nat) n :
  ¬ known_field field_type →
  ∀ i s, (i + S n = max_retries)%nat →
    fill_field_attempts w field_type value (Z.of_nat max_retries) (seq i (S n)) s
    = if asyncio_bound w then
        (Exc (UnboundLocalError "field"), s ++ replicate n (Sleep 1))
      else if (n =? 0)%nat then (Exc (UnboundLocalError "field"), s)
      else (Exc (NameError "asyncio"), s).
Proof.
  intros Hk. induction n as [|n IH]; intros i s Hi;
    rewrite <- cons_seq; cbn [fill_field_attempts];
    unfold try_except; rewrite (fill_field_attempt_unknown w _ _ _ Hk).
  - destruct (Z.eqb_spec (Z.of_nat i) (Z.of_nat max_retries - 1)); [|lia].
    cbn. rewrite app_nil_r. by destruct (asyncio_bound w).
  - destruct (Z.eqb_spec (Z.of_nat i) (Z.of_nat max_retries - 1)); [lia|].
    unfold bind, asyncio_sleep. destruct (asyncio_bound w) eqn:Hb; [|done].
    rewrite (IH (S i)) by lia.
    cbn [replicate]. by rewrite <- app_assoc.
Qed.

End FillBounds.

(** X3.  [fill_field_with_retry] returns [False] exactly when it is given
    no attempt to make, which is when [max_retries] is zero or negative,
    and then without a call; with one attempt or more it returns [True] or
    raises. *)
Theorem fill_field_with_retry_false_iff (w : world) field_type value
    (max_retries : Z) s :
  ((fill_field_with_retry w field_type value max_retries s).1 = Val false
   ↔ max_retries ≤ 0) ∧
  (max_retries ≤ 0 →
   fill_field_with_retry w field_type value max_retries s = (Val false, s)).
Proof.
  assert (Hnone : max_retries ≤ 0 →
    fill_field_with_retry w field_type value max_retries s = (Val false, s)).
  { intros Hle. unfold fill_field_with_retry.
    by replace (Z.to_nat max_retries) with 0%nat by lia. }
  split; [|done]. split.
  - intros H. destruct (Z.le_gt_cases max_retries 0) as [|Hpos]; [done|]. exfalso.
    unfold fill_field_with_retry in H.
    destruct (Z.to_nat max_retries) as [|n] eqn:Hn; [lia|].
    replace max_retries with (Z.of_nat (S n)) in H by lia.
    by apply (fill_field_attempts_not_false w field_type value (S n) n 0 s).
  - intros Hle. by rewrite Hnone.
Qed.

(** X4.  A field type other than "to", "subject" and "body" is not
    rejected at once: every attempt raises [UnboundLocalError] without a
    call to the page.  Where [asyncio] is bound the executor backs off
    between the attempts and raises the last attempt's exception; where it
    is not, and more than one attempt is allowed, the first back-off raises
    [NameError]. *)
Theorem fill_field_with_retry_unknown_field (w : world) field_type value
    (max_retries : Z) s :
  ¬ known_field field_type →
  1 ≤ max_retries →
  fill_field_with_retry w field_type value max_retries s
  = if asyncio_bound w then
      (Exc (UnboundLocalError "field"),
       s ++ replicate (Z.to_nat (max_retries - 1)) (Sleep 1))
    else if max_retries =? 1 then (Exc (UnboundLocalError "field"), s)
    else (Exc (NameError "asyncio"), s).
Proof.
  intros Hk Hmax. unfold fill_field_with_retry.
  destruct (Z.to_nat max_retries) as [|n] eqn:Hn; [lia|].
  replace max_retries with (Z.of_nat (S n)) at 1 by lia.
  rewrite (fill_field_attempts_unknown w field_type value (S n) n Hk 0 s) by lia.
  replace (Z.to_nat (max_retries - 1)) with n by lia.
  destruct (asyncio_bound w); [done|].
  destruct (Nat.eqb_spec n 0), (Z.eqb_spec max_retries 1); (done || lia).
Qed.

(** X5.  Whatever the page does, [fill_field_with_retry] waits on candidates
    for at most five seconds per attempt, [max_retries] times five seconds
    in all, and backs off at most [max_retries - 1] times; with a
    [max_retries] of zero or less it does neither. *)
Theorem fill_field_with_retry_bounded (w : world) field_type value
    (max_retries : Z) s :
  ∃ t, (fill_field_with_retry w field_type value max_retries s).2 = s ++ t ∧
       0 ≤ waited t ≤ Z.max 0 max_retries * 5000 ∧
       (count_calls is_sleep t ≤ Z.to_nat (max_retries - 1))%nat.
Proof.
  unfold fill_field_with_retry.
  destruct (Z.le_gt_cases max_retries 0) as [Hle|Hpos].
  { replace (Z.to_nat max_retries) with 0%nat by lia. exists [].
    rewrite app_nil_r. cbn [seq fill_field_attempts ret snd waited count_calls].
    repeat split; lia. }
  destruct (fill_field_attempts_bounds w field_type value (Z.to_nat max_retries)
              (Z.to_nat max_retries) 0 s eq_refl) as (t & Ht & Hw & Hs).
  rewrite Z2Nat.id in Ht by lia. exists t. split; [done|]. split; lia.
Qed.

(** X25.  Where the name [asyncio] is bound, and everywhere when the first
    attempt succeeds: if the field-fill action fails exactly [k] times, [k]
    below [max_retries], and then succeeds, the executor returns [True]
    with the history of that successful run, and the history shows
    [k + 1] attempts: none is made after the success. *)
Theorem fill_field_with_retry_attempts (w : world) field_type value
    (max_retries : Z) (k : nat) s b s' :
  asyncio_bound w = true ∨ k = 0%nat →
  Z.of_nat k < max_retries →
  fails_then_succeeds (fill_field_attempt w field_type value) 1 k s = Some (b, s') →
  fill_field_with_retry w field_type value max_retries s = (Val true, s') ∧
  ∃ t, s' = s ++ t ∧ count_calls (attempt_start field_type) t = (k + 1)%nat.
Proof.
  intros Hb Hk H. split; [|by eapply fails_then_succeeds_starts].
  assert (b = true) as -> by (by eapply fails_then_succeeds_true).
  unfold fill_field_with_retry.
  replace max_retries with (Z.of_nat (Z.to_nat max_retries)) at 1 by lia.
  replace (Z.to_nat max_retries) with (Z.to_nat max_retries - 0)%nat at 2 by lia.
  apply fill_field_attempts_fails_then_succeeds with (k := k); [done|lia|done].
Qed.

(** ** The send executor *)

Section SendOutcome.
Variable w : world.

Lemma perform_val_inv c s n s' :
  perform w c s = (Val n, s') → raises (page w s c) = false ∧ s' = s ++ [c].
Proof. unfold perform. destruct (page w s c); [|done]. by inversion 1. Qed.

(** An attempt that returns has ended on the confirmation marker, which
    the page has shown. *)
Lemma send_email_attempt_returns email_data s r s' :
  send_email_attempt w email_data s = (Val r, s') →
  r = Some true ∧
  ∃ t, s' = s ++ t ++ [WaitForSelector "span.bAq" 10000] ∧
       raises (page w (s ++ t) (WaitForSelector "span.bAq" 10000)) = false ∧
       count_calls snapshot_start t = 0%nat.
Proof.
  intros H.
  destruct (send_email_attempt_footprint w snapshot_start ltac:(by intros [])
              email_data s) as (t' & Ht' & Hc').
  destruct (send_email_attempt_starts w email_data s) as (t1 & Ht1).
  rewrite H in Ht', Ht1. cbn [snd] in Ht', Ht1.
  unfold send_email_attempt in H.
  do 16 (apply bind_inv in H as (? & ? & _ & H)).
  apply bind_inv in H as (? & s16 & Hw & H).
  inversion H; subst r s16. clear H.
  apply perform_val_inv in Hw as [Hok Hs']. split; [done|].
  assert (Hne : t' ≠ []).
  { intros ->. rewrite Ht' in Ht1. by apply app_inv_head in Ht1. }
  destruct (exists_last Hne) as (t & c & ->).
  rewrite Ht' in Hs'. rewrite app_assoc in Hs'.
  apply app_inj_tail in Hs' as [<- ->].
  exists t. split; [done|]. split; [done|].
  rewrite count_calls_app in Hc'. cbn in Hc'. lia.
Qed.

(** What the loop over the attempts comes to: the return of an attempt
    that no snapshot precedes, or an exception, after one snapshot when
    the last attempt was made, which it is where [asyncio] is bound, and
    without a snapshot otherwise. *)
Lemma send_email_attempts_outcome email_data max_retries n :
  ∀ i s, (i + S n = max_retries)%nat →
    match send_email_attempts w email_data max_retries (seq i (S n)) s with
    | (Val r, s') =>
        ∃ t0, count_calls snapshot_start t0 = 0%nat ∧
              send_email_attempt w email_data (s ++ t0) = (Val r, s')
    | (Exc e, s') =>
        ∃ t, s' = s ++ t ∧
             count_calls snapshot_start t
             = if asyncio_bound w || (n =? 0)%nat then 1%nat else 0%nat
    end.
Proof.
  assert (Hattempt : ∀ s r s1, send_email_attempt w email_data s = (r, s1) →
            ∃ t1, s1 = s ++ t1 ∧ count_calls snapshot_start t1 = 0%nat).
  { intros s r s1 E. apply (run_quiet snapshot_start _ _ _ _ E).
    generalize (send_email_attempt_footprint w snapshot_start
                  ltac:(by intros []) email_data). done. }
  destruct (asyncio_bound w) eqn:Hb; cbn [orb].
  - induction n as [|n IH]; intros i s Hi; rewrite <- cons_seq;
      destruct (send_email_attempt w email_data s) as [[r|e] s1] eqn:E.
    + rewrite (send_email_attempts_success w _ _ _ _ _ _ _ E).
      exists []. by rewrite app_nil_r.
    + rewrite (send_email_attempts_last w _ _ _ _ _ e s1) by (done || lia).
      destruct (Hattempt _ _ _ E) as (t1 & -> & Ht1).
      destruct (save_screenshot_once w
                  ("send_error_attempt_" +:+ pretty (Z.of_nat i + 1)) (s ++ t1))
        as (r & t' & -> & Ht').
      exists (t1 ++ t'). cbn [snd]. rewrite app_assoc, count_calls_app.
      split; [done|lia].
    + rewrite (send_email_attempts_success w _ _ _ _ _ _ _ E).
      exists []. by rewrite app_nil_r.
    + rewrite (send_email_attempts_retry w _ _ _ _ _ e s1) by (done || lia).
      destruct (Hattempt _ _ _ E) as (t1 & -> & Ht1).
      specialize (IH (S i) ((s ++ t1) ++ [Sleep 2]) ltac:(lia)).
      destruct (send_email_attempts w email_data max_retries (seq (S i) (S n)) _)
        as [[r|e'] s'].
      * destruct IH as (t0 & Ht0 & Hrun).
        exists (t1 ++ [Sleep 2] ++ t0). split.
        -- rewrite !count_calls_app. cbn. lia.
        -- by rewrite !app_assoc.
      * destruct IH as (t & -> & Ht).
        exists (t1 ++ [Sleep 2] ++ t). split.
        -- by rewrite !app_assoc.
        -- rewrite !count_calls_app. cbn. lia.
  - intros i s Hi. rewrite <- cons_seq.
    destruct (send_email_attempt w email_data s) as [[r|e] s1] eqn:E.
    + rewrite (send_email_attempts_success w _ _ _ _ _ _ _ E).
      exists []. by rewrite app_nil_r.
    + destruct (Hattempt _ _ _ E) as (t1 & -> & Ht1).
      destruct n as [|n]; cbn [Nat.eqb].
      * rewrite (send_email_attempts_last w _ _ _ _ _ e (s ++ t1)) by (done || lia).
        destruct (save_screenshot_once w
                    ("send_error_attempt_" +:+ pretty (Z.of_nat i + 1)) (s ++ t1))
          as (r & t' & -> & Ht').
        exists (t1 ++ t'). cbn [snd]. rewrite app_assoc, count_calls_app.
        split; [done|lia].
      * rewrite (send_email_attempts_stop w _ _ _ _ _ e (s ++ t1)) by (done || lia).
        by exists t1.
Qed.

End SendOutcome.

(** [send_email] by the keys of the message. *)
Lemma send_email_keys (w : world) (email_data : pydict) s :
  (email_data !! "to" = None →
   send_email w email_data s = (Exc (KeyError "to"), s)) ∧
  (∀ to, email_data !! "to" = Some to → email_data !! "subject" = None →
   send_email w email_data s = (Exc (KeyError "subject"), s)) ∧
  (∀ to subject, email_data !! "to" = Some to → email_data !! "subject" = Some subject →
   send_email w email_data s = send_email_attempts w email_data 3 (seq 0 3) s).
Proof.
  unfold send_email, subscript, bind. repeat split.
  - by intros ->.
  - by intros to -> ->.
  - by intros to subject -> ->.
Qed.

(** X6.  A message without the key "to", or without the key "subject",
    makes [send_email] raise [KeyError] at its first log line: nothing is
    asked of the page, nothing is retried, no snapshot is taken. *)
Theorem send_email_missing_key (w : world) (email_data : pydict) s :
  (email_data !! "to" = None →
   send_email w email_data s = (Exc (KeyError "to"), s)) ∧
  (is_Some (email_data !! "to") → email_data !! "subject" = None →
   send_email w email_data s = (Exc (KeyError "subject"), s)).
Proof.
  destruct (send_email_keys w email_data s) as (Hto & Hsubject & _). split.
  - done.
  - intros [to Hsome]. by apply Hsubject with to.
Qed.

(** X7.  [send_email] never returns [None] or [False]: when it returns, it
    returns [True], its last call was the wait for the confirmation marker,
    the page showed the marker, and no snapshot was taken along the way. *)
Theorem send_email_returns_confirmed (w : world) (email_data : pydict) s r s' :
  send_email w email_data s = (Val r, s') →
  r = Some true ∧
  ∃ t, s' = s ++ t ++ [WaitForSelector "span.bAq" 10000] ∧
       raises (page w (s ++ t) (WaitForSelector "span.bAq" 10000)) = false ∧
       count_calls snapshot_start t = 0%nat.
Proof.
  intros H.
  destruct (send_email_keys w email_data s) as (Hto & Hsubject & Hloop).
  destruct (email_data !! "to") as [to|]; [|by rewrite Hto in H].
  destruct (email_data !! "subject") as [subject|];
    [|by rewrite (Hsubject to) in H].
  rewrite (Hloop to subject) in H by done.
  pose proof (send_email_attempts_outcome w email_data 3 2 0 s eq_refl) as Hout.
  rewrite H in Hout.
  destruct Hout as (t0 & Ht0 & Hrun).
  apply send_email_attempt_returns in Hrun as (-> & t & -> & Hok & Ht).
  split; [done|]. exists (t0 ++ t). rewrite !app_assoc in *.
  split; [done|]. split; [done|]. rewrite count_calls_app. lia.
Qed.

(** X8.  A run of [send_email] takes one snapshot when its retry loop
    gives up after the last attempt, and none otherwise: none when it
    returns, none when it raises for a missing key, and none in a process
    where [asyncio] is not bound, in which the loop is left by the
    [NameError] of the first back-off. *)
Theorem send_email_snapshot_iff_exhausted (w : world) (email_data : pydict) s :
  ∃ t, (send_email w email_data s).2 = s ++ t ∧
       count_calls snapshot_start t
       = match (send_email w email_data s).1,
               email_data !! "to", email_data !! "subject" with
         | Exc _, Some _, Some _ => if asyncio_bound w then 1%nat else 0%nat
         | _, _, _ => 0%nat
         end.
Proof.
  destruct (email_data !! "to") as [to|] eqn:Hto.
  2:{ rewrite (proj1 (send_email_keys w email_data s) Hto).
      exists []. by rewrite app_nil_r. }
  destruct (email_data !! "subject") as [subject|] eqn:Hsubject.
  2:{ rewrite (proj1 (proj2 (send_email_keys w email_data s)) to Hto Hsubject).
      exists []. by rewrite app_nil_r. }
  rewrite (proj2 (proj2 (send_email_keys w email_data s)) to subject Hto Hsubject).
  pose proof (send_email_attempts_outcome w email_data 3 2 0 s eq_refl) as Hout.
  destruct (send_email_attempts w email_data 3 (seq 0 3) s) as [[r|e] s'].
  - destruct Hout as (t0 & Ht0 & Hrun).
    apply send_email_attempt_returns in Hrun as (-> & t & -> & Hok & Ht).
    exists (t0 ++ t ++ [WaitForSelector "span.bAq" 10000]). cbn [fst snd].
    split; [by rewrite !app_assoc|]. rewrite !count_calls_app. cbn. lia.
  - destruct Hout as (t & -> & Ht). exists t. cbn [fst snd]. split; [done|].
    rewrite Ht. by destruct (asyncio_bound w).
Qed.

(** X26.  Where the name [asyncio] is bound: when the action fails on every
    one of the attempts, the executor raises the exception of the last
    attempt as it is, the field-fill executor at the end of that attempt,
    the send executor after it has taken the snapshot, once, labelled with
    the attempt's number. *)
Theorem retry_exhaustion (w : world) :
  asyncio_bound w = true →
  (∀ field_type value max_retries s e s',
     fails_every_time (fill_field_attempt w field_type value) 1
       (Z.to_nat max_retries) s = Some (e, s') →
     fill_field_with_retry w field_type value max_retries s = (Exc e, s')) ∧
  (∀ (email_data : pydict) s e s',
     is_Some (email_data !! "to") → is_Some (email_data !! "subject") →
     fails_every_time (send_email_attempt w email_data) 2 3 s = Some (e, s') →
     send_email w email_data s
     = (Exc e, (save_screenshot w "send_error_attempt_3" s').2) ∧
     ∃ t, (send_email w email_data s).2 = s ++ t ∧
          count_calls snapshot_start t = 1%nat).
Proof.
  intros Hb. split.
  - intros field_type value max_retries s e s' H. unfold fill_field_with_retry.
    destruct (Z.to_nat max_retries) as [|n] eqn:Hn; [done|].
    replace max_retries with (Z.of_nat (S n)) by lia.
    apply fill_field_attempts_fails_every_time; [by left|done|done].
  - intros email_data s e s' [to Hto] [subject Hsubject] H.
    assert (Hrun : send_email w email_data s
                   = (Exc e, (save_screenshot w "send_error_attempt_3" s').2)).
    { rewrite (proj2 (proj2 (send_email_keys w email_data s)) to subject Hto Hsubject).
      by rewrite (send_email_attempts_fails_every_time w email_data 3 3 Hb 0 s e s'). }
    split; [done|]. rewrite Hrun. cbn [snd].
    destruct (fails_every_time_footprint snapshot_start _ 2 3
                (send_email_attempt_footprint w snapshot_start ltac:(by intros []) email_data)
                eq_refl s e s' H) as (t & -> & Ht).
    destruct (save_screenshot_once w "send_error_attempt_3" (s ++ t)) as (r & t' & -> & Ht').
    exists (t ++ t'). cbn [snd]. split; [by rewrite app_assoc|].
    rewrite count_calls_app. lia.
Qed.

(** ** The facade *)

Section FacadeOutcome.
Variable w : world.
Variable g : globals.

(** The run of [gmail_send] when the service is up, in terms of the runs of
    the translator, the validator and the pipeline. *)
Lemma gmail_send_run request agent env s :
  gmail_agent g = Some agent → gmail_env g = Some env →
  gmail_send w g request s =
  match parse_task agent (GmailSendRequest.task request) (GmailSendRequest.tone request) with
  | Exc e =>
      (Exc (if is_http e then e
            else HTTPException 500 ("Gmail send failed: " +:+ str_exn e)), s)
  | Val instructions =>
      match parse_email_json g (merge_recipients request instructions) with
      | Exc e =>
          (Exc (if is_http e then e
                else HTTPException 500 ("Gmail send failed: " +:+ str_exn e)), s)
      | Val email_data =>
          if truthy (dict_get email_data "to") then
            match _send_email_async w g email_data env s with
            | (Exc e, s') =>
                (Exc (HTTPException 500 ("Gmail send failed: " +:+ str_exn e)), s')
            | (Val _, s') =>
                (Val {| success := true;
                        message := "✅ Email sent successfully";
                        email_preview := email_data |}, s')
            end
          else
            (Exc (HTTPException 500
                    "Gmail send failed: No recipient found after parsing/merge."), s)
      end
  end.
Proof.
  intros Hagent Henv. unfold gmail_send. rewrite Hagent, Henv.
  unfold try_except, bind at 1 2, lift.
  destruct (parse_task agent _ _) as [instructions|e]; [|by destruct e].
  destruct (parse_email_json g _) as [email_data|e]; [|by destruct e].
  unfold bind at 1. destruct (truthy (dict_get email_data "to")); [|done].
  cbn [negb ret]. unfold bind, raise, ret.
  by destruct (_send_email_async w g email_data env s) as [[[]|e] s'].
Qed.

End FacadeOutcome.

(** X9.  No exception other than an [HTTPException] leaves [gmail_send]:
    whatever the translator, the validator or the pipeline raise, the
    caller gets a status and a detail. *)
Theorem gmail_send_raises_http_only (w : world) (g : globals) request s e :
  (gmail_send w g request s).1 = Exc e → is_http e = true.
Proof.
  destruct (gmail_agent g) as [agent|] eqn:Hagent;
    [destruct (gmail_env g) as [env|] eqn:Henv|].
  - rewrite (gmail_send_run w g request agent env s Hagent Henv).
    destruct (parse_task agent _ _) as [instructions|e1].
    + destruct (parse_email_json g _) as [email_data|e1].
      * destruct (truthy _).
        -- destruct (_send_email_async w g email_data env s) as [[[]|e1] s'];
             cbn; [done|]. by intros [= <-].
        -- cbn. by intros [= <-].
      * cbn. intros [= <-]. by destruct e1.
    + cbn. intros [= <-]. by destruct e1.
  - unfold gmail_send. rewrite Hagent, Henv. cbn. by intros [= <-].
  - unfold gmail_send. rewrite Hagent. cbn. by intros [= <-].
Qed.

(** X10.  An exception of the pipeline is reported once: as a 500 whose
    detail is "Gmail send failed: " followed by the text of that exception,
    with the history as the pipeline left it. *)
Theorem gmail_send_pipeline_failure (w : world) (g : globals) request agent env
    instructions email_data s e s' :
  gmail_agent g = Some agent → gmail_env g = Some env →
  parse_task agent (GmailSendRequest.task request) (GmailSendRequest.tone request)
  = Val instructions →
  parse_email_json g (merge_recipients request instructions) = Val email_data →
  truthy (dict_get email_data "to") = true →
  _send_email_async w g email_data env s = (Exc e, s') →
  gmail_send w g request s
  = (Exc (HTTPException 500 ("Gmail send failed: " +:+ str_exn e)), s').
Proof.
  intros Hagent Henv Htask Hjson Hto Hrun.
  rewrite (gmail_send_run w g request agent env s Hagent Henv).
  by rewrite Htask, Hjson, Hto, Hrun.
Qed.

(** X11.  [gmail_send] answers with success only after the pipeline has
    returned for the very message it previews, and that message has a
    recipient. *)
Theorem gmail_send_success (w : world) (g : globals) request s resp s' :
  gmail_send w g request s = (Val resp, s') →
  success resp = true ∧
  truthy (dict_get (email_preview resp) "to") = true ∧
  ∃ env, gmail_env g = Some env ∧
         _send_email_async w g (email_preview resp) env s = (Val tt, s').
Proof.
  destruct (gmail_agent g) as [agent|] eqn:Hagent;
    [destruct (gmail_env g) as [env|] eqn:Henv|].
  - rewrite (gmail_send_run w g request agent env s Hagent Henv).
    destruct (parse_task agent _ _) as [instructions|e1]; [|done].
    destruct (parse_email_json g _) as [email_data|e1]; [|done].
    destruct (truthy _) eqn:Hto; [|done].
    destruct (_send_email_async w g email_data env s) as [[[]|e1] s1] eqn:Hrun;
      [|done].
    intros [= <- <-]. cbn. eauto.
  - unfold gmail_send. by rewrite Hagent, Henv.
  - unfold gmail_send. by rewrite Hagent.
Qed.

(** X12.  Once Playwright has started, [_send_email_async] stops it on
    every way out: the last call of the run is the stop.  When the start
    itself raises, nothing else is called. *)
Theorem send_email_async_stops_playwright (w : world) (g : globals)
    (email_data env : pydict) s :
  (∀ e, page w s PlaywrightStart = Raise e →
        _send_email_async w g email_data env s = (Exc e, s ++ [PlaywrightStart])) ∧
  (raises (page w s PlaywrightStart) = false →
   last (_send_email_async w g email_data env s).2 = Some PlaywrightStop).
Proof.
  unfold _send_email_async. rewrite try_reraise. unfold async_with. split.
  - intros e He. by rewrite (bind_exc _ _ _ _ _ (perform_raise w _ _ _ He)).
  - destruct (page w s PlaywrightStart) as [n|e] eqn:Hstart; [intros _|done].
    rewrite (bind_val _ _ _ _ _ (perform_ok w _ _ _ Hstart)).
    match goal with |- context [let (_, _) := ?body ?s1 in _] =>
      destruct (body s1) as [[a|e] s2]
    end; unfold bind, perform;
      destruct (page w s2 PlaywrightStop); cbn; by rewrite last_snoc.
Qed.

(** X13.  An answer of [search_documents] is given only to a non-empty
    question; it counts the chunks the store returned when asked for five,
    whatever [max_results] the request carries, joins their contents with
    newlines into the context, and carries the model's answer to that
    context.  Nothing is asked of the browser. *)
Theorem search_documents_answer (g : UnifiedApi.globals) query s resp s' :
  UnifiedApi.search_documents g query s = (Val resp, s') →
  let question := PDFSearchRequest.question query in
  s' = s ∧ question ≠ "" ∧
  ∃ chunks,
    similarity_search g question 5 = Val chunks ∧
    chunks_found resp = Z.of_nat (length chunks) ∧
    context resp = String.concat newline chunks ∧
    token g question "x-ai/grok-2-vision-1212" (context resp) = Val (response resp).
Proof.
  unfold UnifiedApi.search_documents, try_except, bind at 1.
  destruct (String.eqb_spec (PDFSearchRequest.question query) "") as [Hq|Hq];
    [done|].
  cbn [ret]. unfold bind, lift.
  destruct (similarity_search g _ 5) as [chunks|e] eqn:Hs; [|done].
  destruct (token g _ _ _) as [answer|e] eqn:Ht; [|done].
  intros [= <- <-]. cbn. eauto 10.
Qed.

(** X14.  For a non-empty question, an exception of the store or of the
    model is answered with a 500 whose detail is "Search error: " followed
    by the text of the exception. *)
Theorem search_documents_backend_error (g : UnifiedApi.globals) query s e :
  PDFSearchRequest.question query ≠ "" →
  (similarity_search g (PDFSearchRequest.question query) 5 = Exc e ∨
   ∃ chunks,
     similarity_search g (PDFSearchRequest.question query) 5 = Val chunks ∧
     token g (PDFSearchRequest.question query) "x-ai/grok-2-vision-1212"
       (String.concat newline chunks) = Exc e) →
  UnifiedApi.search_documents g query s
  = (Exc (HTTPException 500 ("Search error: " +:+ str_exn e)), s).
Proof.
  intros Hq H. unfold UnifiedApi.search_documents, try_except, bind at 1.
  destruct (String.eqb_spec (PDFSearchRequest.question query) ""); [done|].
  cbn [ret]. unfold bind, lift.
  destruct H as [->|(chunks & -> & ->)]; done.
Qed.

(** ** The script *)

Section Script.
Variable w : world.

(** The three calls of [login], in their order. *)
Lemma login_run s :
  login w s =
  match page w s (Goto "https://mail.google.com") with
  | Raise e => (Exc e, s ++ [Goto "https://mail.google.com"])
  | Ok _ =>
      let s1 := s ++ [Goto "https://mail.google.com"] in
      match page w s1 (WaitForSelector "div[gh='cm']" 120000) with
      | Raise e => (Exc e, s1 ++ [WaitForSelector "div[gh='cm']" 120000])
      | Ok _ =>
          let s2 := s1 ++ [WaitForSelector "div[gh='cm']" 120000] in
          match page w s2 (WaitForSelector "div[role='main']" 60000) with
          | Raise e => (Exc e, s2 ++ [WaitForSelector "div[role='main']" 60000])
          | Ok _ => (Val tt, s2 ++ [WaitForSelector "div[role='main']" 60000])
          end
      end
  end.
Proof.
  unfold login. rewrite try_reraise. unfold bind, perform.
  destruct (page w s _); [|done].
  destruct (page w (s ++ _) (WaitForSelector "div[gh='cm']" _)); [|done].
  by destruct (page w _ (WaitForSelector "div[role='main']" _)).
Qed.

Lemma login_quiet p :
  (∀ url, p (Goto url) = false) → (∀ sel b, p (WaitForSelector sel b) = false) →
  spends p 0 (login w).
Proof. intros Hg Hw. unfold login. footprint_by ltac:(first [apply Hg|apply Hw]). Qed.

Lemma once_when_done_bind {A B} p (m : M A) (K : A → M B) :
  spends p 0 m → (∀ a, once_when_done p (K a)) → once_when_done p (bind m K).
Proof.
  intros Hm HK s. unfold bind.
  destruct (Hm s) as (t & Ht & Hc).
  destruct (m s) as [[a|e] s1]; cbn [snd] in Ht; subst s1.
  - destruct (HK a (s ++ t)) as (t' & Ht' & Hc'). exists (t ++ t').
    rewrite Ht', app_assoc, count_calls_app. split; [done|]. rewrite Hc'. lia.
  - exists t. cbn. split; [done|lia].
Qed.

(** [async with] around a body that closes the browser when it is done. *)
Lemma once_when_done_async_with {A} (body : M A) :
  (∀ s, raises (page w s PlaywrightStop) = false) →
  once_when_done is_browser_close body →
  once_when_done is_browser_close (async_with w PlaywrightStart PlaywrightStop body).
Proof.
  intros Hstop Hbody s. unfold async_with.
  destruct (page w s PlaywrightStart) as [n|e] eqn:Hstart.
  2:{ rewrite (bind_exc _ _ _ _ _ (perform_raise w _ _ _ Hstart)).
      by exists [PlaywrightStart]. }
  rewrite (bind_val _ _ _ _ _ (perform_ok w _ _ _ Hstart)).
  destruct (Hbody (s ++ [PlaywrightStart])) as (t & Ht & Hc).
  destruct (body (s ++ [PlaywrightStart])) as [[a|e] s1]; cbn [fst snd] in Ht, Hc;
    subst s1; unfold bind, perform;
    specialize (Hstop ((s ++ [PlaywrightStart]) ++ t));
    destruct (page w _ PlaywrightStop); try done;
    exists ([PlaywrightStart] ++ t ++ [PlaywrightStop]); cbn [fst snd];
    (split; [by rewrite <- !app_assoc|]);
    rewrite !count_calls_app, Hc; cbn; lia.
Qed.

End Script.

(** X15.  [login] goes to Gmail, waits up to 120 s for the compose button
    and then up to 60 s for the main content: the calls it issues are the
    first [k] of these three in this order, every call before the last one
    issued has completed, a run that returns has issued all three and the
    third has completed, and a run that raises raises what the page
    raised at the last call issued. *)
Theorem login_order (w : world) s :
  let calls := [Goto "https://mail.google.com";
                WaitForSelector "div[gh='cm']" 120000;
                WaitForSelector "div[role='main']" 60000] in
  ∃ k, (1 ≤ k ≤ 3)%nat ∧ (login w s).2 = s ++ take k calls ∧
       (∀ i c, (i < k - 1)%nat → calls !! i = Some c →
               raises (page w (s ++ take i calls) c) = false) ∧
       match (login w s).1 with
       | Val _ =>
           k = 3%nat ∧
           raises (page w (s ++ take 2 calls)
                     (WaitForSelector "div[role='main']" 60000)) = false
       | Exc e =>
           ∃ c, calls !! (k - 1)%nat = Some c ∧
                page w (s ++ take (k - 1) calls) c = Raise e
       end.
Proof.
  cbn zeta. rewrite login_run.
  destruct (page w s _) as [?|e] eqn:E1.
  2:{ exists 1%nat. cbn [fst snd take]. split; [lia|]. split; [done|]. split.
      - intros i c Hi. lia.
      - eexists. split; [reflexivity|]. cbn. by rewrite app_nil_r. }
  cbn zeta.
  destruct (page w (s ++ _) (WaitForSelector "div[gh='cm']" _)) as [?|e] eqn:E2.
  2:{ exists 2%nat. cbn [fst snd take]. split; [lia|]. split; [by rewrite <- app_assoc|].
      split.
      - intros i c Hi Hc. destruct i as [|i]; [|lia]. injection Hc as <-.
        cbn. by rewrite app_nil_r, E1.
      - eexists. split; [reflexivity|]. done. }
  assert (Hbefore : ∀ i c, (i < 3 - 1)%nat →
            [Goto "https://mail.google.com"; WaitForSelector "div[gh='cm']" 120000;
             WaitForSelector "div[role='main']" 60000] !! i = Some c →
            raises (page w (s ++ take i
              [Goto "https://mail.google.com"; WaitForSelector "div[gh='cm']" 120000;
               WaitForSelector "div[role='main']" 60000]) c) = false).
  { intros i c Hi Hc. destruct i as [|[|i]]; [| |lia]; injection Hc as <-; cbn.
    - by rewrite app_nil_r, E1.
    - by rewrite E2. }
  rewrite <- app_assoc in *. cbn [app] in *.
  destruct (page w _ (WaitForSelector "div[role='main']" _)) as [?|e] eqn:E3;
    exists 3%nat; cbn [fst snd take]; (split; [lia|]);
    (split; [by rewrite <- app_assoc|]); (split; [exact Hbefore|]).
  - by split.
  - eexists. split; [reflexivity|]. done.
Qed.

(** X16.  When closing the browser and stopping Playwright do not fail,
    [main()] calls [browser.close()] once if it completes and not at all if
    it raises: a failed login or send leaves the closing to the stop of
    Playwright. *)
Theorem main_closes_browser_when_done (w : world) load_gmail_env new_agent s :
  (∀ s0, raises (page w s0 BrowserClose) = false) →
  (∀ s0, raises (page w s0 PlaywrightStop) = false) →
  let run := MainAsyncFixedMain.main w load_gmail_env new_agent s in
  ∃ t, run.2 = s ++ t ∧
       count_calls is_browser_close t
       = match run.1 with Val _ => 1%nat | Exc _ => 0%nat end.
Proof.
  intros Hclose Hstop. cbn zeta. revert s.
  change (once_when_done is_browser_close
            (MainAsyncFixedMain.main w load_gmail_env new_agent)).
  unfold MainAsyncFixedMain.main.
  apply once_when_done_bind; [apply spends_lift|intros env].
  apply once_when_done_bind; [apply spends_subscript|intros key].
  apply once_when_done_bind; [apply spends_lift|intros _].
  apply once_when_done_async_with; [done|].
  apply once_when_done_bind; [by apply spends_perform_0|intros _].
  apply once_when_done_bind; [by apply spends_perform_0|intros _].
  apply once_when_done_bind; [by apply login_quiet|intros _].
  apply once_when_done_bind.
  { generalize (send_email_footprint w is_browser_close 0
      (send_email_attempt_footprint w is_browser_close ltac:(by intros []))
      (λ _, eq_refl) (λ _, eq_refl) (λ _, eq_refl) MainAsyncFixedMain.email_data).
    done. }
  intros _ s. unfold bind, perform. specialize (Hclose s).
  destruct (page w s BrowserClose); [|done]. by exists [BrowserClose].
Qed.

(** ** The initialisation of the Gmail agent *)

Lemma gmail_send_unavailable (w : world) (g : globals) request s :
  gmail_agent g = None ∨ gmail_env g = None →
  gmail_send w g request s
  = (Exc (HTTPException 503
            ("Gmail service not available. " +:+
             or_check_configuration (gmail_init_error g))), s).
Proof.
  unfold gmail_send. intros [->| ->]; [done|]. by destruct (gmail_agent g).
Qed.

(** X17.  When the environment holds no [GROQ_API_KEY] (or an empty one),
    the initialisation keeps the environment but makes no agent, and every
    POST /gmail/send is answered 503 with the reason, without a call to
    the translator or the browser. *)
Theorem gmail_send_without_key (w : world) (g : globals) env new_agent request s :
  truthy (dict_get env "GROQ_API_KEY") = false →
  initialised_by (Val env) new_agent g →
  gmail_env g = Some env ∧
  gmail_send w g request s
  = (Exc (HTTPException 503
            "Gmail service not available. GROQ_API_KEY missing in environment."), s).
Proof.
  intros Hkey Hinit. unfold initialised_by, UnifiedApiInit.gmail_init in Hinit.
  rewrite Hkey in Hinit. cbn in Hinit. injection Hinit as Hagent Henv Herr.
  split; [done|].
  rewrite (gmail_send_unavailable w g request s (or_introl Hagent)).
  by rewrite Herr.
Qed.

(** X18.  After the initialisation block, either no error is recorded and
    both the agent and the environment are there, or an error is recorded,
    there is no agent, and every POST /gmail/send is answered 503 with
    that error (or "Check configuration." when its text is empty). *)
Theorem gmail_init_error_iff_unavailable (w : world) (g : globals)
    load_gmail_env new_agent :
  initialised_by load_gmail_env new_agent g →
  (gmail_init_error g = None ∧ is_Some (gmail_agent g) ∧ is_Some (gmail_env g)) ∨
  (is_Some (gmail_init_error g) ∧ gmail_agent g = None ∧
   ∀ request s,
     gmail_send w g request s
     = (Exc (HTTPException 503
               ("Gmail service not available. " +:+
                or_check_configuration (gmail_init_error g))), s)).
Proof.
  intros Hinit. unfold initialised_by, UnifiedApiInit.gmail_init in Hinit.
  assert (Hcases :
    (gmail_init_error g = None ∧ is_Some (gmail_agent g) ∧ is_Some (gmail_env g)) ∨
    (is_Some (gmail_init_error g) ∧ gmail_agent g = None)).
  { destruct load_gmail_env as [env|e].
    - destruct (negb (truthy (dict_get env "GROQ_API_KEY"))).
      + injection Hinit as -> -> ->. right. eauto.
      + destruct (new_agent _) as [agent|e]; injection Hinit as -> -> ->;
          [left|right]; eauto.
    - injection Hinit as -> -> ->. right. eauto. }
  destruct Hcases as [?|[Herr Hagent]]; [by left|right].
  repeat split; try done. intros request s.
  by apply gmail_send_unavailable; left.
Qed.

(** ** POST /agent/search *)

Import UnifiedApiAgent.

(** X19.  [agent_search] returns what the crew answered for the task built
    from the query, as [result] and as the one element of [results], with
    the query and the context of the request; [max_results] plays no part.
    When the crew raises, the answer is a 500 whose detail is the text of
    the exception behind the prefix "500: ", the handler having caught its
    own [HTTPException]. *)
Theorem agent_search_outcome (crew : string → result string) request s :
  let query := SearchRequest.query request in
  agent_search crew request s =
  match crew (SearchService.task_description query) with
  | Val result =>
      (Val (SearchService.Found query result (SearchRequest.context request) [result]), s)
  | Exc e => (Exc (HTTPException 500 ("500: " +:+ str_exn e)), s)
  end.
Proof.
  cbn zeta. unfold agent_search, SearchService.search_web, try_except.
  by destruct (crew _).
Qed.

(** ** POST /api/upload *)

Section UploadProperties.
Import Upload.
Variable k : collaborators.

Lemma lower_app s1 s2 : lower (s1 +:+ s2) = lower s1 +:+ lower s2.
Proof.
  induction s1 as [|c s1 IH]; [done|].
  change (String c s1 +:+ s2) with (String c (s1 +:+ s2)).
  change (String (lower_ascii c) (lower s1) +:+ lower s2)
    with (String (lower_ascii c) (lower s1 +:+ lower s2)).
  cbn [lower]. by rewrite IH.
Qed.

Lemma endswith_app s suffix : endswith (s +:+ suffix) suffix = true.
Proof.
  induction s as [|c s IH].
  - change ("" +:+ suffix) with suffix.
    destruct suffix; cbn [endswith]; by rewrite String.eqb_refl.
  - change (String c s +:+ suffix) with (String c (s +:+ suffix)).
    cbn [endswith]. rewrite IH. apply orb_true_r.
Qed.

(** The [with] block leaves the files as they were plus the temporary
    file, once the temporary file is made. *)
Lemma write_temp_file_files files name :
  mktemp k files = Val name →
  (write_temp_file k files).2 = {[name]} ∪ files.
Proof.
  intros Hname. unfold write_temp_file. rewrite Hname.
  destruct (read k) as [content|e].
  - destruct (write k name content); destruct (close k name); done.
  - destruct (close k name); done.
Qed.

(** [temp_file_path] is set exactly when the content was read and
    written. *)
Lemma process_path file_name files name :
  mktemp k files = Val name →
  ∃ outcome,
    process k file_name files =
    (outcome,
     match read k with
     | Val content =>
         match write k name content with
         | Val _ => Some name
         | Exc _ => None
         end
     | Exc _ => None
     end, {[name]} ∪ files).
Proof.
  intros Hname. unfold process, write_temp_file. rewrite Hname.
  destruct (read k) as [content|e].
  - destruct (write k name content); destruct (close k name); try by eexists.
    destruct (load k name) as [documents|]; [|by eexists].
    destruct (split_documents k documents) as [chunks|]; [|by eexists].
    destruct (add_documents k chunks); by eexists.
  - destruct (close k name); by eexists.
Qed.

End UploadProperties.

(** X20.  A name whose end is ".pdf" in any mix of upper and lower case
    passes the check of [upload_file]; any other name is answered 400
    before a temporary file is made or the upload is read. *)
Theorem upload_file_checks_name (k : Upload.collaborators) (files : gset string) :
  (∀ base extension,
     Upload.lower extension = ".pdf" →
     Upload.endswith (Upload.lower (base +:+ extension)) ".pdf" = true) ∧
  (∀ file_name,
     Upload.endswith (Upload.lower file_name) ".pdf" = false →
     Upload.upload_file k file_name files
     = (Exc (HTTPException 400 "Only PDF files are supported"), files)).
Proof.
  split.
  - intros base extension Hext. rewrite lower_app, Hext. apply endswith_app.
  - intros file_name Hname. unfold Upload.upload_file. by rewrite Hname.
Qed.

(** X21.  Once the upload has been read and written to the temporary file,
    [upload_file] removes that file on every way out, whether the PDF is
    then loaded, split and stored or one of these steps raises: with a
    fresh temporary name and an [os.unlink] that works, the files are
    afterwards what they were before. *)
Theorem upload_file_removes_temp_file (k : Upload.collaborators) file_name
    (files : gset string) name content :
  Upload.endswith (Upload.lower file_name) ".pdf" = true →
  Upload.mktemp k files = Val name →
  name ∉ files → name ≠ "" →
  Upload.read k = Val content →
  Upload.write k name content = Val tt →
  Upload.unlink k name = Val tt →
  (Upload.upload_file k file_name files).2 = files.
Proof.
  intros Hpdf Hname Hfresh Hne Hread Hwrite Hunlink.
  unfold Upload.upload_file. rewrite Hpdf. cbn [negb].
  destruct (process_path k file_name files name Hname) as (outcome & ->).
  rewrite Hread, Hwrite.
  apply String.eqb_neq in Hne as ->. cbn [negb andb].
  rewrite bool_decide_eq_true_2
    by (apply elem_of_union; left; by apply elem_of_singleton).
  rewrite Hunlink. cbn [snd].
  apply set_eq. intros x.
  rewrite elem_of_difference, elem_of_union, !elem_of_singleton. split.
  - by intros [[->|Hx] Hx'].
  - intros Hx. split; [by right|]. by intros ->.
Qed.

(** X22.  When reading the upload or writing it to the temporary file
    raises, [temp_file_path] is still [None] in the [finally]: the answer
    is a 500 and the temporary file is left behind. *)
Theorem upload_file_leaves_temp_file (k : Upload.collaborators) file_name
    (files : gset string) name :
  Upload.endswith (Upload.lower file_name) ".pdf" = true →
  Upload.mktemp k files = Val name →
  (match Upload.read k with
   | Exc _ => True
   | Val content => ∃ e, Upload.write k name content = Exc e
   end) →
  status_of (Upload.upload_file k file_name files).1 = Some 500 ∧
  (Upload.upload_file k file_name files).2 = {[name]} ∪ files.
Proof.
  intros Hpdf Hname Hfail.
  unfold Upload.upload_file. rewrite Hpdf. cbn [negb].
  unfold Upload.process, Upload.write_temp_file. rewrite Hname.
  destruct (Upload.read k) as [content|e].
  - destruct Hfail as [e ->]. by destruct (Upload.close k name).
  - by destruct (Upload.close k name).
Qed.

(** X23.  When [os.unlink] does not fail, [upload_file] raises nothing but
    [HTTPException]s: the 400 of the name check, or a 500 whose detail
    begins with "Error processing file: ". *)
Theorem upload_file_raises_http_only (k : Upload.collaborators) file_name
    (files : gset string) e :
  (∀ path, Upload.unlink k path = Val tt) →
  (Upload.upload_file k file_name files).1 = Exc e →
  e = HTTPException 400 "Only PDF files are supported" ∨
  ∃ cause, e = HTTPException 500 ("Error processing file: " +:+ str_exn cause).
Proof.
  intros Hunlink. unfold Upload.upload_file.
  destruct (negb _); [intros [= <-]; by left|].
  destruct (Upload.process k file_name files) as [[outcome path] files'].
  intros H. right.
  assert (Hout : match outcome with
                 | Val response => Val response
                 | Exc e0 => Exc (HTTPException 500 ("Error processing file: " +:+ str_exn e0))
                 end = Exc e).
  { destruct path as [path|]; [|done].
    destruct (_ && _); [|done]. by rewrite Hunlink in H. }
  destruct outcome as [?|cause]; [done|]. injection Hout as <-. by exists cause.
Qed.

(** X24.  [upload_file] answers with success only for a name that passed
    the check and after the chunks were added to the store; it reports
    the number of these chunks and the name of the upload. *)
Theorem upload_file_success (k : Upload.collaborators) file_name
    (files files' : gset string) response :
  Upload.upload_file k file_name files = (Val response, files') →
  Upload.endswith (Upload.lower file_name) ".pdf" = true ∧
  Upload.filename response = file_name ∧
  ∃ name documents chunks,
    Upload.mktemp k files = Val name ∧
    Upload.load k name = Val documents ∧
    Upload.split_documents k documents = Val chunks ∧
    Upload.add_documents k chunks = Val tt ∧
    Upload.chunks_added response = Z.of_nat (length chunks).
Proof.
  unfold Upload.upload_file.
  destruct (Upload.endswith _ _); [cbn [negb]|done].
  unfold Upload.process, Upload.write_temp_file.
  destruct (Upload.mktemp k files) as [name|] eqn:Hname; [|done].
  assert (Hfinally : ∀ (outcome : result Upload.upload_response) path fs,
    match path with
    | Some p =>
        if negb (String.eqb p "") && bool_decide (p ∈ fs) then
          match Upload.unlink k p with
          | Exc e => (Exc e, fs)
          | Val _ => (outcome, fs ∖ {[p]})
          end
        else (outcome, fs)
    | None => (outcome, fs)
    end = (Val response, files') → outcome = Val response).
  { intros outcome [p|] fs; [|by intros [= ->]].
    destruct (_ && _); [|by intros [= ->]].
    destruct (Upload.unlink k p); [|done]. by intros [= ->]. }
  destruct (Upload.read k) as [content|];
    [destruct (Upload.write k name content)|];
    destruct (Upload.close k name); try (intros H; discriminate H);
    try (intros H; by apply (Hfinally _ (Some name)) in H).
  destruct (Upload.load k name) as [documents|] eqn:Hload;
    [|intros H; by apply (Hfinally _ (Some name)) in H].
  destruct (Upload.split_documents k documents) as [chunks|] eqn:Hsplit;
    [|intros H; by apply (Hfinally _ (Some name)) in H].
  destruct (Upload.add_documents k chunks) as [[]|] eqn:Hadd;
    [|intros H; by apply (Hfinally _ (Some name)) in H].
  intros H. apply (Hfinally _ (Some name)) in H. injection H as <-. cbn.
  split; [reflexivity|]. split; [reflexivity|].
  exists name, documents, chunks. repeat split; first [assumption|reflexivity].
Qed.

(** * The further properties at work on the fake pages *)

(** The four candidates of the To field share five seconds, each with a
    limit. *)
Lemma wait_for_element_within_timeout_witness :
  ∃ t, (wait_for_element Fake.world_blank (Strs to_field_selectors) 5000 "To field" []).2
       = [] ++ t ∧
       count_calls unlimited_wait t = 0%nat ∧ 0 ≤ waited t ≤ 5000.
Proof.
  destruct (wait_for_element_within_timeout Fake.world_blank
              (Strs to_field_selectors) 5000 "To field" []) as (t & Ht & Hlimited & _).
  exists t. split; [done|]. apply Hlimited. cbn. lia.
Defined.

(** The Send button does not show; the text box of the dialog is returned. *)
Lemma wait_for_element_fallback_witness :
  (wait_for_element Fake.world_dialog_only (Strs send_selectors) 5000 "Send button" []).1
  = Val DialogTextboxFirst.
Proof.
  rewrite (wait_for_element_fallback Fake.world_dialog_only
             (Strs send_selectors) 5000 "Send button" []);
    [reflexivity|vm_compute; reflexivity|vm_compute; reflexivity].
Defined.

(** A negative [max_retries]: no attempt to make, [False], no call. *)
Lemma fill_field_with_retry_false_iff_witness :
  fill_field_with_retry Fake.world_ok "subject" (PStr "hi") (-1) [] = (Val false, []).
Proof.
  apply (proj2 (fill_field_with_retry_false_iff Fake.world_ok "subject" (PStr "hi") (-1) [])).
  lia.
Defined.

(** The field type "cc" is unknown to the executor. *)
Lemma fill_field_with_retry_unknown_field_witness :
  fill_field_with_retry Fake.world_ok "cc" (PStr "c@x") 3 []
  = (Exc (UnboundLocalError "field"), [Sleep 1; Sleep 1]) ∧
  fill_field_with_retry Fake.world_ok_imported "cc" (PStr "c@x") 3 []
  = (Exc (NameError "asyncio"), []).
Proof.
  split.
  - rewrite (fill_field_with_retry_unknown_field Fake.world_ok "cc" (PStr "c@x") 3 []);
      [reflexivity|intros [H|[H|H]]; discriminate H|lia].
  - rewrite (fill_field_with_retry_unknown_field Fake.world_ok_imported
               "cc" (PStr "c@x") 3 []);
      [reflexivity|intros [H|[H|H]]; discriminate H|lia].
Defined.

(** Two failed fills, then a good one: three attempts. *)
Lemma fill_field_with_retry_attempts_witness :
  let w := Fake.world_fill_fails_twice in
  let s' := (fill_field_with_retry w "subject" (PStr "hi") 3 []).2 in
  fill_field_with_retry w "subject" (PStr "hi") 3 [] = (Val true, s') ∧
  ∃ t, s' = [] ++ t ∧ count_calls (attempt_start "subject") t = (2 + 1)%nat.
Proof.
  cbn zeta.
  apply (fill_field_with_retry_attempts Fake.world_fill_fails_twice "subject"
           (PStr "hi") 3 2 [] true); [by left|lia|vm_compute; reflexivity].
Defined.

(** On a blank page the subject cannot be filled; without confirmation
    the message of [main()] is not sent, and one snapshot is taken. *)
Lemma retry_exhaustion_witness :
  (∃ e s', fill_field_with_retry Fake.world_blank "subject" (PStr "hi") 3 [] = (Exc e, s')) ∧
  (∃ e t, (send_email Fake.world_unconfirmed Fake.email_data []).1 = Exc e ∧
          (send_email Fake.world_unconfirmed Fake.email_data []).2 = [] ++ t ∧
          count_calls snapshot_start t = 1%nat).
Proof.
  split.
  - eexists _, _.
    apply (proj1 (retry_exhaustion Fake.world_blank eq_refl) "subject" (PStr "hi") 3 []).
    vm_compute. reflexivity.
  - destruct (proj2 (retry_exhaustion Fake.world_unconfirmed eq_refl) Fake.email_data []
                (TimeoutError "Timeout 10000ms exceeded.")
                (removelast (removelast
                   (send_email Fake.world_unconfirmed Fake.email_data []).2)))
      as (Hrun & t & Ht & Hc).
    + vm_compute. eauto.
    + vm_compute. eauto.
    + vm_compute. reflexivity.
    + exists (TimeoutError "Timeout 10000ms exceeded."), t.
      rewrite Hrun in *. done.
Defined.

(** A message without subject. *)
Lemma send_email_missing_key_witness :
  send_email Fake.world_ok (<["to" := PList ["a@x"]]> ∅) []
  = (Exc (KeyError "subject"), []).
Proof.
  apply (proj2 (send_email_missing_key Fake.world_ok (<["to" := PList ["a@x"]]> ∅) [])).
  - vm_compute. eauto.
  - vm_compute. reflexivity.
Defined.

(** The message of [main()] on the page where everything works. *)
Lemma send_email_returns_confirmed_witness :
  let run := send_email Fake.world_ok Fake.email_data [] in
  run.1 = Val (Some true) ∧
  ∃ t, run.2 = [] ++ t ++ [WaitForSelector "span.bAq" 10000] ∧
       raises (page Fake.world_ok ([] ++ t) (WaitForSelector "span.bAq" 10000)) = false ∧
       count_calls snapshot_start t = 0%nat.
Proof.
  cbn zeta.
  destruct (send_email_returns_confirmed Fake.world_ok Fake.email_data []
              (Some true)
              (send_email Fake.world_ok Fake.email_data []).2) as (Hr & t & Ht & Hok & Hc).
  - vm_compute. reflexivity.
  - split; [vm_compute; reflexivity|]. by exists t.
Defined.

(** The request without recipient is answered with an [HTTPException]. *)
Lemma gmail_send_raises_http_only_witness :
  is_http (HTTPException 500
             "Gmail send failed: No recipient found after parsing/merge.") = true.
Proof.
  apply (gmail_send_raises_http_only Fake.world_ok
           (Fake.globals Fake.world_ok Fake.agent_no_recipient)
           Fake.request_no_recipient []).
  vm_compute. reflexivity.
Defined.

(** The confirmation never shows: the time-out of the pipeline comes back
    as a 500. *)
Lemma gmail_send_pipeline_failure_witness :
  (gmail_send Fake.world_unconfirmed
     (Fake.globals Fake.world_unconfirmed Fake.agent_a) Fake.request_b []).1
  = Exc (HTTPException 500 "Gmail send failed: Timeout 10000ms exceeded.").
Proof.
  rewrite (gmail_send_pipeline_failure Fake.world_unconfirmed
             (Fake.globals Fake.world_unconfirmed Fake.agent_a) Fake.request_b
             Fake.agent_a ∅ Fake.instructions_a
             (merge_recipients Fake.request_b Fake.instructions_a) []
             (TimeoutError "Timeout 10000ms exceeded.")
             (_send_email_async Fake.world_unconfirmed
                (Fake.globals Fake.world_unconfirmed Fake.agent_a)
                (merge_recipients Fake.request_b Fake.instructions_a) ∅ []).2);
    try reflexivity; vm_compute; reflexivity.
Defined.

(** On the page where everything works the request for [b@x] succeeds. *)
Lemma gmail_send_success_witness :
  let run := gmail_send Fake.world_ok (Fake.globals Fake.world_ok Fake.agent_a)
               Fake.request_b [] in
  ∃ resp, run.1 = Val resp ∧ success resp = true ∧
          truthy (dict_get (email_preview resp) "to") = true.
Proof.
  cbn zeta.
  exists {| success := true;
            message := "✅ Email sent successfully";
            email_preview := merge_recipients Fake.request_b Fake.instructions_a |}.
  split; [vm_compute; reflexivity|].
  destruct (gmail_send_success Fake.world_ok (Fake.globals Fake.world_ok Fake.agent_a)
              Fake.request_b []
              {| success := true;
                 message := "✅ Email sent successfully";
                 email_preview := merge_recipients Fake.request_b Fake.instructions_a |}
              (gmail_send Fake.world_ok (Fake.globals Fake.world_ok Fake.agent_a)
                 Fake.request_b []).2) as (Hs & Hto & _).
  - vm_compute. reflexivity.
  - by split.
Defined.

(** Two chunks for a question that asks for ten. *)
Lemma search_documents_answer_witness :
  ∃ chunks,
    similarity_search (Fake.globals_two_chunks Fake.world_ok) "What?" 5 = Val chunks ∧
    length chunks = 2%nat.
Proof.
  destruct (search_documents_answer (Fake.globals_two_chunks Fake.world_ok)
              (PDFSearchRequest.Build "What?" 10) []
              {| response := "first" +:+ newline +:+ "second";
                 context := "first" +:+ newline +:+ "second";
                 chunks_found := 2 |} [])
    as (_ & _ & chunks & Hchunks & Hn & _).
  - vm_compute. reflexivity.
  - exists chunks. split; [done|]. cbn in Hn. lia.
Defined.

(** The store is down. *)
Lemma search_documents_backend_error_witness :
  search_documents (Fake.globals_store_down Fake.world_ok)
    (PDFSearchRequest.Build "What?" 5) []
  = (Exc (HTTPException 500 "Search error: connection refused"), []).
Proof.
  apply (search_documents_backend_error (Fake.globals_store_down Fake.world_ok)
           (PDFSearchRequest.Build "What?" 5) [] (ExternalError "connection refused")).
  - discriminate.
  - left. reflexivity.
Defined.

(** Gmail never loads: [main()] raises and does not close the browser. *)
Lemma main_closes_browser_when_done_witness :
  let run := MainAsyncFixedMain.main Fake.world_offline (Val Fake.env_with_key)
               (λ _, Val tt) [] in
  ∃ t, run.2 = [] ++ t ∧
       count_calls is_browser_close t
       = match run.1 with Val _ => 1%nat | Exc _ => 0%nat end.
Proof.
  cbn zeta.
  apply (main_closes_browser_when_done Fake.world_offline (Val Fake.env_with_key)
           (λ _, Val tt) []); reflexivity.
Defined.

(** No key in the environment. *)
Lemma gmail_send_without_key_witness :
  gmail_send Fake.world_ok (Fake.globals_without_key Fake.world_ok)
    Fake.request_b []
  = (Exc (HTTPException 503
            "Gmail service not available. GROQ_API_KEY missing in environment."), []).
Proof.
  apply (gmail_send_without_key Fake.world_ok (Fake.globals_without_key Fake.world_ok)
           Fake.env_without_key (λ _, Val Fake.agent_a) Fake.request_b []);
    vm_compute; reflexivity.
Defined.

(** After an initialisation without key the error is recorded. *)
Lemma gmail_init_error_iff_unavailable_witness :
  is_Some (gmail_init_error (Fake.globals_without_key Fake.world_ok)).
Proof.
  destruct (gmail_init_error_iff_unavailable Fake.world_ok
              (Fake.globals_without_key Fake.world_ok)
              (Val Fake.env_without_key) (λ _, Val Fake.agent_a))
    as [(Hnone & _)|(Hsome & _)].
  - vm_compute. reflexivity.
  - discriminate Hnone.
  - exact Hsome.
Defined.

(** The store refuses the chunks of Report.PDF: no file is left. *)
Lemma upload_file_removes_temp_file_witness :
  (Upload.upload_file Fake.upload_store_down "Report.PDF" ∅).2 = ∅.
Proof.
  apply (upload_file_removes_temp_file Fake.upload_store_down "Report.PDF" ∅
           "/tmp/tmpab12.pdf" "%PDF-1.7"); try reflexivity.
  - apply not_elem_of_empty.
  - discriminate.
Defined.

(** The upload cannot be read: the temporary file stays. *)
Lemma upload_file_leaves_temp_file_witness :
  status_of (Upload.upload_file Fake.upload_unreadable "report.pdf" ∅).1 = Some 500 ∧
  (Upload.upload_file Fake.upload_unreadable "report.pdf" ∅).2
  = {["/tmp/tmpab12.pdf"]} ∪ ∅.
Proof.
  apply (upload_file_leaves_temp_file Fake.upload_unreadable "report.pdf" ∅
           "/tmp/tmpab12.pdf"); [reflexivity|reflexivity|exact I].
Defined.

(** The store refuses the chunks: a 500 with the cause. *)
Lemma upload_file_raises_http_only_witness :
  HTTPException 500 "Error processing file: connection refused"
  = HTTPException 400 "Only PDF files are supported" ∨
  ∃ cause, HTTPException 500 "Error processing file: connection refused"
           = HTTPException 500 ("Error processing file: " +:+ str_exn cause).
Proof.
  apply (upload_file_raises_http_only Fake.upload_store_down "report.pdf" ∅);
    [intros path|]; reflexivity.
Defined.

(** Two pages, three chunks. *)
Lemma upload_file_success_witness :
  ∃ response,
    (Upload.upload_file Fake.upload_ok "report.pdf" ∅).1 = Val response ∧
    Upload.chunks_added response = 3.
Proof.
  exists {| Upload.success := true;
            Upload.message := "Successfully uploaded and processed report.pdf";
            Upload.filename := "report.pdf";
            Upload.chunks_added := 3 |}.
  split; [reflexivity|].
  destruct (upload_file_success Fake.upload_ok "report.pdf" ∅
              (Upload.upload_file Fake.upload_ok "report.pdf" ∅).2
              {| Upload.success := true;
                 Upload.message := "Successfully uploaded and processed report.pdf";
                 Upload.filename := "report.pdf";
                 Upload.chunks_added := 3 |})
    as (_ & _ & name & documents & chunks & _ & _ & _ & _ & Hn);
    [reflexivity|reflexivity].
Defined.

(** On the page where everything works the run ends with the stop of
    Playwright. *)
Lemma send_email_async_stops_playwright_witness :
  last (_send_email_async Fake.world_ok (Fake.globals Fake.world_ok Fake.agent_a)
          Fake.email_data ∅ []).2
  = Some PlaywrightStop.
Proof.
  apply (proj2 (send_email_async_stops_playwright Fake.world_ok
                  (Fake.globals Fake.world_ok Fake.agent_a) Fake.email_data ∅ [])).
  reflexivity.
Defined.

(** Report.PDF passes the check, notes.txt is answered 400. *)
Lemma upload_file_checks_name_witness :
  Upload.endswith (Upload.lower ("Report" +:+ ".PDF")) ".pdf" = true ∧
  Upload.upload_file Fake.upload_ok "notes.txt" ∅
  = (Exc (HTTPException 400 "Only PDF files are supported"), ∅).
Proof.
  split.
  - apply (proj1 (upload_file_checks_name Fake.upload_ok ∅) "Report" ".PDF").
    reflexivity.
  - apply (proj2 (upload_file_checks_name Fake.upload_ok ∅) "notes.txt").
    reflexivity.
Defined.
